(** * DeepSite backend (server.js): generation relay with credential
      failover, and the publish pipeline

    A shallow embedding of the two routes of [server.js] that carry the
    control flow of the program, [POST /api/ask-ai] and [POST /api/deploy],
    followed by the properties the specification states about them.

    JavaScript strings are modelled by [string], one character per UTF-16
    code unit; the development covers the code units below 256 (ASCII and
    Latin-1).  An optional field of a request body ([string | undefined])
    is an [option string].  Calls that leave the process (the inference
    gateway, the hosting platform) are oracles handed to the handlers, and
    every call made is recorded in a trace. *)

From Stdlib Require Import String Ascii List Bool Arith Lia.
From stdpp Require Import base option gmap strings pretty.
Import ListNotations.
Open Scope string_scope.
Open Scope list_scope.
Open Scope nat_scope.

(* ================================================================== *)
(** ** JavaScript primitives used by the server *)
(* ================================================================== *)

Module Js.

(** The double quote, which the source writes inside template literals. *)
Definition dq : string := String (ascii_of_nat 34) EmptyString.
(** The line feed of a multi-line template literal. *)
Definition nl : string := String (ascii_of_nat 10) EmptyString.

(** [ToBoolean] on a value that is a string or [undefined]: the tests
    [if (x)], [!x], [x ? a : b] and [Boolean(x)] of the source. *)
Definition truthy (v : option string) : bool :=
  match v with
  | Some s => negb (String.eqb s "")
  | None => false
  end.

(** [x === ""] *)
Definition isEmptyString (v : option string) : bool :=
  match v with
  | Some s => String.eqb s ""
  | None => false
  end.

(** [x ?? d] *)
Definition nullish (v : option string) (d : string) : string :=
  match v with
  | Some s => s
  | None => d
  end.

(** [x || d] on a string or [undefined] *)
Definition orElse (v : option string) (d : string) : string :=
  if truthy v then nullish v d else d.

(** [xs.filter(Boolean)] on an array of strings and [undefined]s. *)
Fixpoint filterBoolean (xs : list (option string)) : list string :=
  match xs with
  | [] => []
  | Some s :: xs' =>
      if truthy (Some s) then s :: filterBoolean xs' else filterBoolean xs'
  | None :: xs' => filterBoolean xs'
  end.

Definition codeUnit (c : ascii) : nat := nat_of_ascii c.

(** The character class [[a-z0-9]]. *)
Definition inClass_az09 (c : ascii) : bool :=
  let n := codeUnit c in
  ((97 <=? n) && (n <=? 122)) || ((48 <=? n) && (n <=? 57)).

(** [String.prototype.toLowerCase] on one code unit below 256: the
    letters A-Z and the Latin-1 capitals U+00C0..U+00DE (the
    multiplication sign U+00D7 apart) move up by 32.  This is the
    function of JavaScript on the texts the development covers, and on
    them only: above U+00FF the function of JavaScript can change the
    number of code units (U+0130) and can produce an ASCII letter (U+212A).
    The properties of the slug are stated of the lower-cased title, so
    that they do not rest on this restriction. *)
Definition lowerUnit (c : ascii) : ascii :=
  let n := codeUnit c in
  if ((65 <=? n) && (n <=? 90))
     || ((192 <=? n) && (n <=? 222) && negb (n =? 215))
  then ascii_of_nat (n + 32)
  else c.

Fixpoint toLowerCase (s : string) : string :=
  match s with
  | EmptyString => EmptyString
  | String c s' => String (lowerUnit c) (toLowerCase s')
  end.

(** [s.replace(/[^a-z0-9]+/g, "-")]: every maximal run of code units
    outside the class is replaced by one hyphen.  [inRun] tells that the
    preceding code unit belonged to a run already replaced. *)
Fixpoint replaceRuns (inRun : bool) (s : string) : string :=
  match s with
  | EmptyString => EmptyString
  | String c s' =>
      if inClass_az09 c then String c (replaceRuns false s')
      else if inRun then replaceRuns true s'
      else String "-" (replaceRuns true s')
  end.

Definition replace_non_az09 (s : string) : string := replaceRuns false s.

(** [s.split("-")]: always at least one piece. *)
Fixpoint split (sep : ascii) (s : string) : list string :=
  match s with
  | EmptyString => [EmptyString]
  | String c s' =>
      if Ascii.eqb c sep then EmptyString :: split sep s'
      else match split sep s' with
           | [] => [String c EmptyString]
           | w :: ws => String c w :: ws
           end
  end.

(** [pieces.filter(Boolean)] on an array of strings. *)
Definition filterNonEmpty (ws : list string) : list string :=
  List.filter (fun w => truthy (Some w)) ws.

(** [pieces.join(sep)] *)
Definition join (sep : string) (ws : list string) : string :=
  String.concat sep ws.

(** [s.slice(0, n)] *)
Fixpoint slice0 (n : nat) (s : string) : string :=
  match n, s with
  | S n', String c s' => String c (slice0 n' s')
  | _, _ => EmptyString
  end.

(** [s.startsWith(t)] *)
Fixpoint startsWith (t s : string) : bool :=
  match t, s with
  | EmptyString, _ => true
  | String a t', String b s' => Ascii.eqb a b && startsWith t' s'
  | String _ _, EmptyString => false
  end.

(** [s.slice(n)] *)
Fixpoint sliceFrom (n : nat) (s : string) : string :=
  match n, s with
  | S n', String _ s' => sliceFrom n' s'
  | _, _ => s
  end.

(** [s.includes(t)] *)
Fixpoint includes (s t : string) : bool :=
  startsWith t s
  || match s with
     | EmptyString => false
     | String _ s' => includes s' t
     end.

(** [s.replace(/pat/, repl)] for a pattern that is a literal text and a
    replacement with no [$]: the first occurrence of [pat] is replaced,
    and a string without occurrence is returned as it is. *)
Fixpoint replaceFirst (pat repl s : string) : string :=
  if startsWith pat s then repl +:+ sliceFrom (String.length pat) s
  else match s with
       | EmptyString => EmptyString
       | String c s' => String c (replaceFirst pat repl s')
       end.

End Js.

Import Js.

(* ================================================================== *)
(** ** Effects: a state and exception monad *)
(* ================================================================== *)

Module Eff.

(** Outcome of an awaited call or of a block: a value, or a thrown
    [Error] of which the handlers use the [message] only. *)
Inductive result (A : Type) : Type :=
| Ok (a : A)
| Thrown (message : string).
Arguments Ok {A} a.
Arguments Thrown {A} message.

Definition t (S A : Type) : Type := S -> result A * S.

Definition ret {S A : Type} (a : A) : t S A := fun s => (Ok a, s).

Definition bind {S A B : Type} (m : t S A) (k : A -> t S B) : t S B :=
  fun s =>
    match m s with
    | (Ok a, s') => k a s'
    | (Thrown e, s') => (Thrown e, s')
    end.

Definition throw {S A : Type} (message : string) : t S A :=
  fun s => (Thrown message, s).

(** [try { m } catch (err) { h err.message }] *)
Definition tryCatch {S A : Type} (m : t S A) (h : string -> t S A) : t S A :=
  fun s =>
    match m s with
    | (Ok a, s') => (Ok a, s')
    | (Thrown e, s') => h e s'
    end.

Definition get {S : Type} : t S S := fun s => (Ok s, s).
Definition modify {S : Type} (f : S -> S) : t S unit := fun s => (Ok tt, f s).

(** An awaited promise whose outcome is already known. *)
Definition await {S A : Type} (r : result A) : t S A := fun s => (r, s).

End Eff.

Import Eff.

Notation "x <- m ;; k" := (Eff.bind m (fun x => k))
  (at level 100, m at next level, right associativity).
Notation "m ;;; k" := (Eff.bind m (fun _ => k))
  (at level 100, right associativity).

(* ================================================================== *)
(** ** POST /api/deploy: the publish pipeline *)
(* ================================================================== *)

Module Deploy.

(** [req.body] of the route, and the cookie the handler reads.  The
    handler runs behind the [checkUser] middleware, which is not part of
    [server.js], and behind [bodyParser.json()]; what is modelled is the
    handler on a body that was parsed and whose three fields are strings or
    absent.  A body that the parser refuses does not reach the handler, and
    a field of another type is outside this model. *)
Record Body : Type := {
  html : option string;
  title : option string;
  path : option string
}.

Record Req : Type := {
  body : Body;
  hf_token : option string
}.

(** [new Blob([text], { type })] with its [name] property set. *)
Record Blob : Type := {
  text : string;
  type : string;
  name : string
}.

(** The [repo] object handed to the hub library. *)
Record Repo : Type := {
  repoType : string;
  repoName : string
}.

(** The three primitives of [@huggingface/hub]: each is an awaited call
    that resolves or throws. *)
Record Hub : Type := {
  whoAmI : option string -> result string;
  createRepo : Repo -> option string -> result unit;
  uploadFiles : Repo -> list Blob -> option string -> result unit
}.

(** The calls made on the platform, in the order they are made. *)
Inductive HubCall : Type :=
| CallWhoAmI (accessToken : option string)
| CallCreateRepo (repo : Repo) (accessToken : option string)
| CallUploadFiles (repo : Repo) (files : list Blob) (accessToken : option string).

(** [res.status(n).send({ ok: false, message })] and
    [res.status(n).send({ ok: true, path })]. *)
Inductive Payload : Type :=
| Failure (message : string)
| Published (path : string).

Record Reply : Type := {
  status : nat;
  payload : Payload
}.

Definition M := Eff.t (list HubCall).

Definition call {A : Type} (c : HubCall) (r : result A) : M A :=
  Eff.modify (fun tr => tr ++ [c]) ;;; Eff.await r.

(** The paragraph put before the closing body tag of a new site. *)
Definition attribution : string :=
  "<p style="
  +:+ dq
  +:+ "border-radius: 8px; text-align: center; font-size: "
  +:+ "12px; color: #fff; margin-top: 16px;position: fixed; "
  +:+ "left: 8px; bottom: 8px; z-index: 10; background: "
  +:+ "rgba(0, 0, 0, 0.8); padding: 4px 8px;"
  +:+ dq
  +:+ ">Made with <a href="
  +:+ dq
  +:+ "https://enzostvs-deepsite.hf.space"
  +:+ dq
  +:+ " style="
  +:+ dq
  +:+ "color: #fff;"
  +:+ dq
  +:+ " target="
  +:+ dq
  +:+ "_blank"
  +:+ dq
  +:+ " >DeepSite</a> <img src="
  +:+ dq
  +:+ "https://enzostvs-deepsite.hf.space/logo.svg"
  +:+ dq
  +:+ " alt="
  +:+ dq
  +:+ "DeepSite Logo"
  +:+ dq
  +:+ " style="
  +:+ dq
  +:+ "width: 16px; height: 16px; vertical-align: middle;"
  +:+ dq
  +:+ "></p>".

(** The emoji of the descriptor, U+1F433, is the one character of the
    source outside Latin-1; it is kept as the four bytes of its UTF-8
    encoding, the form in which the Blob holds it. *)
Definition whale : string := "🐳".

(** The README of a new space: a YAML header and a pointer to the
    configuration reference. *)
Definition readmeText (newTitle : string) : string :=
  "---" +:+ nl
  +:+ "title: " +:+ newTitle +:+ nl
  +:+ "emoji: " +:+ whale +:+ nl
  +:+ "colorFrom: blue" +:+ nl
  +:+ "colorTo: blue" +:+ nl
  +:+ "sdk: static" +:+ nl
  +:+ "pinned: false" +:+ nl
  +:+ "tags:" +:+ nl
  +:+ "  - deepsite" +:+ nl
  +:+ "---" +:+ nl
  +:+ nl
  +:+ "Check out the configuration reference at "
  +:+ "https://huggingface.co/docs/hub/spaces-config-reference".

(** [title.toLowerCase().replace(/[^a-z0-9]+/g, "-").split("-")
      .filter(Boolean).join("-").slice(0, 96)] *)
Definition newTitle (title : string) : string :=
  slice0 96
    (join "-"
       (filterNonEmpty
          (split "-" (replace_non_az09 (toLowerCase title))))).

(** The body of the [try] block. *)
Definition publish (hub : Hub) (b : Body) (token : option string)
           (file : Blob) : M Reply :=
  let repo := {| repoType := "space"; repoName := nullish (path b) "" |} in
  created <-
    (if negb (truthy (path b)) || isEmptyString (path b) then
       username <- call (CallWhoAmI token) (whoAmI hub token) ;;
       let slug := newTitle (nullish (title b) "") in
       let repoId := username +:+ "/" +:+ slug in
       let repo' := {| repoType := repoType repo; repoName := repoId |} in
       call (CallCreateRepo repo' token) (createRepo hub repo' token) ;;;
       Eff.ret (repo', Some (readmeText slug))
     else Eff.ret (repo, None)) ;;
  let '(repo, readme) := created in
  let files :=
    [file] ++
    (if truthy readme then
       [{| text := nullish readme ""; type := "text/markdown";
           name := "README.md" |}]
     else []) in
  call (CallUploadFiles repo files token) (uploadFiles hub repo files token) ;;;
  Eff.ret {| status := 200; payload := Published (repoName repo) |}.

(** The handler of the route. *)
Definition handler (hub : Hub) (req : Req) : M Reply :=
  let b := body req in
  if negb (truthy (html b)) || negb (truthy (title b)) then
    Eff.ret {| status := 400; payload := Failure "Missing required fields" |}
  else
    let html0 := nullish (html b) "" in
    let newHtml :=
      if negb (truthy (path b)) then
        replaceFirst "</body>" (attribution +:+ "</body>") html0
      else html0 in
    let file := {| text := newHtml; type := "text/html"; name := "index.html" |} in
    Eff.tryCatch
      (publish hub b (hf_token req) file)
      (fun message =>
         Eff.ret {| status := 500; payload := Failure message |}).

(** One request served from an empty trace: the reply and the calls. *)
Definition run (hub : Hub) (req : Req) : option Reply * list HubCall :=
  match handler hub req [] with
  | (Ok r, tr) => (Some r, tr)
  | (Thrown _, tr) => (None, tr)
  end.

(** *** Vocabulary of the properties *)

(** The entry document of a site, and the descriptor of a new one. *)
Definition indexFile (content : string) : Blob :=
  {| text := content; type := "text/html"; name := "index.html" |}.
Definition readmeFile (slug : string) : Blob :=
  {| text := readmeText slug; type := "text/markdown"; name := "README.md" |}.

Definition space (repoId : string) : Repo :=
  {| repoType := "space"; repoName := repoId |}.

(** The reply that follows the upload: [200] with the path, or [500]
    with the message of the platform. *)
Definition uploadReply (r : result unit) (repoId : string) : Reply :=
  match r with
  | Ok _ => {| status := 200; payload := Published repoId |}
  | Thrown message => {| status := 500; payload := Failure message |}
  end.

Definition invalidRequest : Reply :=
  {| status := 400; payload := Failure "Missing required fields" |}.

(** A request that differs from [req] in its [path] only. *)
Definition withPath (req : Req) (p : option string) : Req :=
  {| body := {| html := html (body req); title := title (body req); path := p |};
     hf_token := hf_token req |}.

End Deploy.

(* ================================================================== *)
(** ** POST /api/ask-ai: failover prober and streaming relay *)
(* ================================================================== *)

Module AskAi.

Record Body : Type := {
  prompt : option string;
  html : option string;
  previousPrompt : option string
}.

(** The four entries of [process.env] the handler reads. *)
Record Env : Type := {
  OPENROUTER_API_KEY_1 : option string;
  OPENROUTER_API_KEY_2 : option string;
  OPENROUTER_API_KEY_3 : option string;
  OPENROUTER_API_KEY_4 : option string
}.

Definition openRouterKeys (env : Env) : list string :=
  filterBoolean
    [OPENROUTER_API_KEY_1 env; OPENROUTER_API_KEY_2 env;
     OPENROUTER_API_KEY_3 env; OPENROUTER_API_KEY_4 env].

(** [new OpenAI({ baseURL, apiKey })] *)
Record OpenAI : Type := {
  baseURL : string;
  apiKey : option string
}.

Inductive Role : Type := system | user | assistant.

Record Message : Type := {
  role : Role;
  content : string
}.

Record ChatParams : Type := {
  model : string;
  messages : list Message;
  stream : bool;
  extra_headers : list (string * string)
}.

(** A chunk of the completion stream, read by the handler as
    [chunk.choices[0]?.delta?.content]. *)
Module Chunk.
Record Delta : Type := { content : option string }.
Record Choice : Type := { delta : option Delta }.
Record t : Type := { choices : list Choice }.

Definition firstDeltaContent (chunk : t) : option string :=
  match choices chunk with
  | [] => None
  | c :: _ =>
      match delta c with
      | None => None
      | Some d => content d
      end
  end.
End Chunk.

(** One step of [for await (const chunk of stream)]: the stream yields a
    chunk or the iteration throws; the end of the list is the end of the
    stream. *)
Inductive StreamItem : Type :=
| Yield (chunk : Chunk.t)
| Raise (message : string).

(** The inference gateway.  [models_list i client] is the outcome of the
    probe the request makes in iteration [i] of the failover loop. *)
Record Gateway : Type := {
  models_list : nat -> OpenAI -> result unit;
  chat_completions_create : OpenAI -> ChatParams -> result (list StreamItem)
}.

(** What the handler does to the outside, in order. *)
Inductive Event : Type :=
| SetHeader (name value : string)
| ModelsList (client : OpenAI)
| Warn (text : string)
| ChatCreate (client : OpenAI) (params : ChatParams)
| Write (fragment : string)
| End_
| ConsoleError (message : string)
| Send (status : nat) (message : string).

(** The variables of one call of the handler, and the response object. *)
Record St : Type := {
  apiKeyIndex : nat;
  completeResponse : string;
  headersSent : bool;
  trace : list Event
}.

Definition M := Eff.t St.

Definition emit (e : Event) : M unit :=
  Eff.modify (fun st =>
    {| apiKeyIndex := apiKeyIndex st;
       completeResponse := completeResponse st;
       headersSent := headersSent st;
       trace := trace st ++ [e] |}).

Definition markHeadersSent : M unit :=
  Eff.modify (fun st =>
    {| apiKeyIndex := apiKeyIndex st;
       completeResponse := completeResponse st;
       headersSent := true;
       trace := trace st |}).

Definition setApiKeyIndex (i : nat) : M unit :=
  Eff.modify (fun st =>
    {| apiKeyIndex := i;
       completeResponse := completeResponse st;
       headersSent := headersSent st;
       trace := trace st |}).

Definition appendResponse (content : string) : M unit :=
  Eff.modify (fun st =>
    {| apiKeyIndex := apiKeyIndex st;
       completeResponse := completeResponse st +:+ content;
       headersSent := headersSent st;
       trace := trace st |}).

(** [res.setHeader], [res.write], [res.end], [res.status(n).send(..)]:
    the first write, the end and the send put the headers on the wire. *)
Definition res_setHeader (name value : string) : M unit :=
  emit (SetHeader name value).
Definition res_write (content : string) : M unit :=
  markHeadersSent ;;; emit (Write content).
Definition res_end : M unit :=
  markHeadersSent ;;; emit End_.
Definition res_send (status : nat) (message : string) : M unit :=
  markHeadersSent ;;; emit (Send status message).

Definition createOpenAIClient (keys : list string) : M OpenAI :=
  st <- Eff.get ;;
  Eff.ret {| baseURL := "https://openrouter.ai/api/v1";
             apiKey := keys !! apiKeyIndex st |}.

(** The loop [for (let i = ..; i < openRouterKeys.length; i++)] of
    [getWorkingClient], with [n] iterations left. *)
Fixpoint getWorkingClientFrom (gw : Gateway) (keys : list string)
         (n i : nat) : M OpenAI :=
  match n with
  | 0 => Eff.throw "No available OpenRouter API key."
  | S n' =>
      setApiKeyIndex i ;;;
      Eff.tryCatch
        (client <- createOpenAIClient keys ;;
         emit (ModelsList client) ;;;
         Eff.await (models_list gw i client) ;;;
         Eff.ret client)
        (fun _ =>
           emit (Warn ("API key " +:+ pretty (i + 1)
                       +:+ " failed, trying next...")) ;;;
           getWorkingClientFrom gw keys n' (S i))
  end.

Definition getWorkingClient (gw : Gateway) (keys : list string) : M OpenAI :=
  getWorkingClientFrom gw keys (length keys) 0.

Definition systemInstruction : string :=
  "ONLY USE HTML, CSS AND JAVASCRIPT. If you want to use ICON "
  +:+ "make sure to import the library first. Try to create the "
  +:+ "best UI possible by using only HTML, CSS and JAVASCRIPT. "
  +:+ "Also, try to ellaborate as much as you can, to create "
  +:+ "something unique. ALWAYS GIVE THE RESPONSE INTO A SINGLE "
  +:+ "HTML FILE".

(** The [messages] array of the completion request. *)
Definition buildMessages (b : Body) : list Message :=
  [{| role := system; content := systemInstruction |}]
  ++ (if truthy (previousPrompt b)
      then [{| role := user; content := nullish (previousPrompt b) "" |}]
      else [])
  ++ (if truthy (html b)
      then [{| role := assistant;
               content := "The current code is: "
                          +:+ nullish (html b) "" +:+ "." |}]
      else [])
  ++ [{| role := user; content := nullish (prompt b) "" |}].

Definition chatParams (b : Body) : ChatParams :=
  {| model := "deepseek/deepseek-v3-base:free";
     messages := buildMessages b;
     stream := true;
     extra_headers := [("HTTP-Referer", "http://localhost:3000");
                       ("X-Title", "DeepSite-Local")] |}.

(** The loop [for await (const chunk of stream)]. *)
Fixpoint relay (items : list StreamItem) : M unit :=
  match items with
  | [] => Eff.ret tt
  | Raise message :: _ => Eff.throw message
  | Yield chunk :: rest =>
      let content := orElse (Chunk.firstDeltaContent chunk) "" in
      res_write content ;;;
      appendResponse content ;;;
      st <- Eff.get ;;
      if includes (completeResponse st) "</html>" then Eff.ret tt
      else relay rest
  end.

Definition tokenLimitHint : string :=
  "You probably reached the MAX_TOKENS limit, context is too "
  +:+ "long. You can start a new conversation by refreshing the "
  +:+ "page.".

(** The body of the [try] block. *)
Definition generate (env : Env) (gw : Gateway) (b : Body) : M unit :=
  openai <- getWorkingClient gw (openRouterKeys env) ;;
  emit (ChatCreate openai (chatParams b)) ;;;
  items <- Eff.await (chat_completions_create gw openai (chatParams b)) ;;
  relay items ;;;
  res_end.

(** The body of the [catch] block. *)
Definition onError (message : string) : M unit :=
  emit (ConsoleError message) ;;;
  st <- Eff.get ;;
  if negb (headersSent st) then res_send 500 tokenLimitHint
  else res_end.

(** The handler of the route. *)
Definition handler (env : Env) (gw : Gateway) (b : Body) : M unit :=
  if negb (truthy (prompt b)) then
    res_send 400 "Missing required fields"
  else
    res_setHeader "Content-Type" "text/plain" ;;;
    res_setHeader "Cache-Control" "no-cache" ;;;
    res_setHeader "Connection" "keep-alive" ;;;
    Eff.tryCatch (generate env gw b) onError.

(** The state a call of the handler starts from. *)
Definition fresh : St :=
  {| apiKeyIndex := 0; completeResponse := ""; headersSent := false;
     trace := [] |}.

(** The state in which the [try] block is entered. *)
Definition opened : St :=
  {| apiKeyIndex := 0; completeResponse := ""; headersSent := false;
     trace := [SetHeader "Content-Type" "text/plain";
               SetHeader "Cache-Control" "no-cache";
               SetHeader "Connection" "keep-alive"] |}.

(** What one request makes happen. *)
Definition run (env : Env) (gw : Gateway) (b : Body) : list Event :=
  trace (snd (handler env gw b fresh)).

(** Projections of a trace. *)
Definition written (tr : list Event) : list string :=
  flat_map (fun e => match e with Write s => [s] | _ => [] end) tr.
Definition probed (tr : list Event) : list OpenAI :=
  flat_map (fun e => match e with ModelsList c => [c] | _ => [] end) tr.
Definition sent (tr : list Event) : list (nat * string) :=
  flat_map (fun e => match e with Send n m => [(n, m)] | _ => [] end) tr.
Definition created (tr : list Event) : list (OpenAI * ChatParams) :=
  flat_map (fun e => match e with ChatCreate c p => [(c, p)] | _ => [] end) tr.
Definition ended (tr : list Event) : bool :=
  existsb (fun e => match e with End_ => true | _ => false end) tr.

(** A message of the conversation. *)
Definition turn (r : Role) (c : string) : Message :=
  {| role := r; content := c |}.

(** The client the handler builds for a key of the pool. *)
Definition clientOf (key : string) : OpenAI :=
  {| baseURL := "https://openrouter.ai/api/v1"; apiKey := Some key |}.

(** The text the relay takes from a chunk. *)
Definition contentOf (chunk : Chunk.t) : string :=
  orElse (Chunk.firstDeltaContent chunk) "".

(** What [completeResponse] has gained after a list of chunks. *)
Definition buffer (chunks : list Chunk.t) : string :=
  fold_right (fun c acc => contentOf c +:+ acc) "" chunks.

(** The events of the probes that fail, from iteration [i] on. *)
Fixpoint failTrace (i : nat) (keys : list string) : list Event :=
  match keys with
  | [] => []
  | k :: keys' =>
      ModelsList (clientOf k)
      :: Warn ("API key " +:+ pretty (i + 1) +:+ " failed, trying next...")
      :: failTrace (S i) keys'
  end.

(** *** Vocabulary of the properties *)

(** The probe made with key [k] in iteration [i] throws, or resolves. *)
Definition fails (gw : Gateway) (i : nat) (k : string) : Prop :=
  exists e, models_list gw i (clientOf k) = Thrown e.
Definition passes (gw : Gateway) (i : nat) (k : string) : Prop :=
  models_list gw i (clientOf k) = Ok tt.

(** Every key of [keys] fails its probe, [keys] being probed from
    iteration [i] on. *)
Definition allFail (gw : Gateway) (i : nat) (keys : list string) : Prop :=
  forall m k, keys !! m = Some k -> fails gw (i + m) k.

(** [st'] is [st] after the events [evs], none of which touches the
    response or the buffer. *)
Definition extends (st st' : St) (evs : list Event) : Prop :=
  trace st' = trace st ++ evs
  /\ headersSent st' = headersSent st
  /\ completeResponse st' = completeResponse st.

Definition probing (st : St) (i : nat) (evs : list Event) : St :=
  {| apiKeyIndex := i;
     completeResponse := completeResponse st;
     headersSent := headersSent st;
     trace := trace st ++ evs |}.

Definition closingTag : string := "</html>".

(** The state after [res.write(content); completeResponse += content]. *)
Definition wrote (st : St) (content : string) : St :=
  {| apiKeyIndex := apiKeyIndex st;
     completeResponse := completeResponse st +:+ content;
     headersSent := true;
     trace := trace st ++ [Write content] |}.

(** The state after events that leave the response object alone. *)
Definition logged (st : St) (evs : list Event) : St :=
  {| apiKeyIndex := apiKeyIndex st;
     completeResponse := completeResponse st;
     headersSent := headersSent st;
     trace := trace st ++ evs |}.

(** Starting from a buffer [buf], the buffer contains the closing tag
    after the last chunk of [chunks] and after no earlier one. *)
Definition stopsAt (buf : string) (chunks : list Chunk.t) : Prop :=
  includes (buf +:+ buffer chunks) closingTag = true
  /\ forall cs1 cs2,
       chunks = cs1 ++ cs2 -> cs2 <> [] ->
       includes (buf +:+ buffer cs1) closingTag = false.

(** The flag [res.headersSent] follows the writes: the headers are out
    exactly when something was written. *)
Definition flagTracksWrites (st : St) : Prop :=
  headersSent st = true <-> written (trace st) <> [].

(** The state after [res.end()]. *)
Definition closed (st : St) : St :=
  {| apiKeyIndex := apiKeyIndex st;
     completeResponse := completeResponse st;
     headersSent := true;
     trace := trace st ++ [End_] |}.

End AskAi.

(* ================================================================== *)
(** ** The process: module-level state and the generate route *)
(* ================================================================== *)

Module Server.

Definition MODEL_ID : string := "deepseek-ai/DeepSeek-V3-0324".
Definition MAX_REQUESTS_PER_IP : nat := 4.

(** The mutable state declared at module level: [ipAddresses], a [Map]
    from the network address of a caller to a count. *)
Record t : Type := {
  ipAddresses : gmap string nat
}.

(** [const ipAddresses = new Map()] *)
Definition boot : t := {| ipAddresses := ∅ |}.

(** One request to the generate route: the address it comes from, its
    body, and the gateway as it answers during that request. *)
Record AskAiRequest : Type := {
  ip : string;
  askBody : AskAi.Body;
  gateway : AskAi.Gateway
}.

(** The route under the module-level state.  The handler names neither
    [ipAddresses] nor [MAX_REQUESTS_PER_IP] nor the address of the
    caller: the state comes back as it went in. *)
Definition askAi (env : AskAi.Env) (srv : t) (r : AskAiRequest)
  : t * list AskAi.Event :=
  (srv, AskAi.run env (gateway r) (askBody r)).

(** Requests served one after the other. *)
Fixpoint serve (env : AskAi.Env) (srv : t) (rs : list AskAiRequest)
  : t * list (list AskAi.Event) :=
  match rs with
  | [] => (srv, [])
  | r :: rs' =>
      let '(srv1, out) := askAi env srv r in
      let '(srv2, outs) := serve env srv1 rs' in
      (srv2, out :: outs)
  end.

End Server.

(* ================================================================== *)
(** ** The slug as the specification words it *)
(* ================================================================== *)

Module SlugSpec.


(** Drop the separators at the start. *)
Fixpoint trimLeading (s : string) : string :=
  match s with
  | String c s' => if Ascii.eqb c "-" then trimLeading s' else s
  | EmptyString => EmptyString
  end.

(** Drop the separators at the end. *)
Fixpoint trimTrailing (s : string) : string :=
  match s with
  | EmptyString => EmptyString
  | String c s' =>
      match trimTrailing s' with
      | EmptyString => if Ascii.eqb c "-" then EmptyString else String c EmptyString
      | r => String c r
      end
  end.




(** *** Vocabulary of the comparison *)

Definition startsWithSep (s : string) : bool :=
  match s with
  | String c _ => Ascii.eqb c "-"
  | EmptyString => false
  end.

(** No two separators side by side. *)
Fixpoint noDoubleSep (s : string) : Prop :=
  match s with
  | EmptyString => True
  | String c s' =>
      (Ascii.eqb c "-" = true -> startsWithSep s' = false) /\ noDoubleSep s'
  end.

End SlugSpec.

(* ================================================================== *)
(** ** Sample requests and collaborators *)
(* ================================================================== *)

Module Demo.

Import AskAi.

Definition chunkOf (fragment : string) : Chunk.t :=
  {| Chunk.choices :=
       [{| Chunk.delta := Some {| Chunk.content := Some fragment |} |}] |}.

(** The fragments of the example of the specification, and one that the
    model sends after the document is complete. *)
Definition fragments : list Chunk.t :=
  [chunkOf "..."; chunkOf "</ht"; chunkOf "ml>"].
Definition afterwards : list StreamItem :=
  [Yield (chunkOf "<!-- more -->")].

(** Three keys configured, the fourth variable unset. *)
Definition env : Env :=
  {| OPENROUTER_API_KEY_1 := Some "sk-or-1";
     OPENROUTER_API_KEY_2 := Some "sk-or-2";
     OPENROUTER_API_KEY_3 := Some "sk-or-3";
     OPENROUTER_API_KEY_4 := None |}.

(** The first probe of a request is refused, later ones pass; the
    completion streams the fragments above. *)
Definition gateway : Gateway :=
  {| models_list := fun i _ => if i =? 0 then Thrown "401" else Ok tt;
     chat_completions_create := fun _ _ =>
       Ok (map Yield fragments ++ afterwards) |}.

(** Every probe is refused. *)
Definition deadGateway : Gateway :=
  {| models_list := fun _ _ => Thrown "401";
     chat_completions_create := fun _ _ => Ok [] |}.

(** The completion is refused before it streams anything. *)
Definition refusingGateway : Gateway :=
  {| models_list := fun _ _ => Ok tt;
     chat_completions_create := fun _ _ => Thrown "context length exceeded" |}.

(** The stream breaks after its first fragment. *)
Definition breakingGateway : Gateway :=
  {| models_list := fun _ _ => Ok tt;
     chat_completions_create := fun _ _ =>
       Ok [Yield (chunkOf "<!DOCTYPE html>"); Raise "socket hang up"] |}.

Definition firstAsk : Body :=
  {| prompt := Some "a landing page"; html := None; previousPrompt := None |}.

Definition followUp : Body :=
  {| prompt := Some "make it blue";
     html := Some "<html><body>hi</body></html>";
     previousPrompt := Some "a landing page" |}.

(** Five requests from one address. *)
Definition sameCaller : list Server.AskAiRequest :=
  repeat {| Server.ip := "203.0.113.7"; Server.askBody := firstAsk;
            Server.gateway := gateway |} 5.

(** A platform that accepts everything, for the account [alice]. *)
Definition hub : Deploy.Hub :=
  {| Deploy.whoAmI := fun _ => Ok "alice";
     Deploy.createRepo := fun _ _ => Ok tt;
     Deploy.uploadFiles := fun _ _ _ => Ok tt |}.

Definition page : string := "<html><body><h1>hi</h1></body></html>".

Definition createRequest : Deploy.Req :=
  {| Deploy.body := {| Deploy.html := Some page;
                       Deploy.title := Some "My Cool App!!";
                       Deploy.path := None |};
     Deploy.hf_token := Some "hf_token_of_alice" |}.

Definition overwriteRequest : Deploy.Req :=
  {| Deploy.body := {| Deploy.html := Some page;
                       Deploy.title := Some "My Cool App!!";
                       Deploy.path := Some "alice/my-cool-app" |};
     Deploy.hf_token := Some "hf_token_of_alice" |}.

(** An overwrite that names its target and leaves the title out. *)
Definition overwriteWithoutTitle : Deploy.Req :=
  {| Deploy.body := {| Deploy.html := Some page;
                       Deploy.title := None;
                       Deploy.path := Some "alice/my-cool-app" |};
     Deploy.hf_token := Some "hf_token_of_alice" |}.

End Demo.

(* ================================================================== *)
(** ** The login routes and the identity lookup *)
(* ================================================================== *)

Module Auth.

(** The entries of [process.env] the login routes read. *)
Record ProcessEnv : Type := {
  env_APP_PORT : option string;
  env_REDIRECT_URI : option string;
  env_OAUTH_CLIENT_ID : option string;
  env_OAUTH_CLIENT_SECRET : option string
}.

(** A string or [undefined] inside a template literal. *)
Definition template (v : option string) : string :=
  match v with
  | Some s => s
  | None => "undefined"
  end.

(** [process.env.APP_PORT || 3000], as a template literal prints it. *)
Definition PORT (env : ProcessEnv) : string :=
  orElse (env_APP_PORT env) "3000".

Definition REDIRECT_URI (env : ProcessEnv) : string :=
  orElse (env_REDIRECT_URI env)
         ("http://localhost:" +:+ PORT env +:+ "/auth/login").

(** The address [GET /api/login] redirects to. *)
Definition authorizeUrl (env : ProcessEnv) : string :=
  "https://huggingface.co/oauth/authorize?client_id="
  +:+ template (env_OAUTH_CLIENT_ID env)
  +:+ "&redirect_uri=" +:+ REDIRECT_URI env
  +:+ "&response_type=code"
  +:+ "&scope=openid%20profile%20write-repos%20manage-repos%20inference-api"
  +:+ "&prompt=consent&state=1234567890".

(** The second argument of [fetch]; [params] are the entries of the
    [URLSearchParams] body. *)
Record FetchInit : Type := {
  method : string;
  headers : list (string * string);
  params : list (string * string)
}.

(** What the handler reads of the answer of the token endpoint. *)
Record TokenResponse : Type := {
  access_token : option string
}.

(** The identity provider and the runtime: the base64 text of a
    [Buffer], the token endpoint and the user-info endpoint, each [fetch]
    taken together with the reading of its JSON body. *)
Record Provider : Type := {
  base64 : string -> string;
  oauth_token : FetchInit -> result TokenResponse;
  oauth_userinfo : FetchInit -> result string
}.

Record CookieOptions : Type := {
  httpOnly : bool;
  secure : bool;
  sameSite : string;
  maxAge : N
}.

Inductive Event : Type :=
| Fetch (url : string) (init : FetchInit)
| Redirect (status : nat) (url : string)
| Cookie (name value : string) (options : CookieOptions)
| ClearCookie (name : string)
| SendUser (user : string)
| SendFailure (status : nat) (message : string).

Definition M := Eff.t (list Event).

Definition emit (e : Event) : M unit :=
  Eff.modify (fun tr => tr ++ [e]).

(** [GET /api/login] *)
Definition login (env : ProcessEnv) : M unit :=
  emit (Redirect 302 (authorizeUrl env)).

(** The request to the token endpoint for an authorization code. *)
Definition tokenRequest (env : ProcessEnv) (idp : Provider) (code : string)
  : FetchInit :=
  {| method := "POST";
     headers :=
       [("Content-Type", "application/x-www-form-urlencoded");
        ("Authorization",
         "Basic " +:+ base64 idp (template (env_OAUTH_CLIENT_ID env) +:+ ":"
                                  +:+ template (env_OAUTH_CLIENT_SECRET env)))];
     params :=
       [("grant_type", "authorization_code");
        ("code", code);
        ("redirect_uri", REDIRECT_URI env)] |}.

Definition sessionCookie : CookieOptions :=
  {| httpOnly := false; secure := true; sameSite := "none";
     maxAge := (30 * 24 * 60 * 60 * 1000)%N |}.

(** [GET /auth/login], [code] being [req.query.code].  The handler has no
    [try]: what the token endpoint throws leaves the handler. *)
Definition callback (env : ProcessEnv) (idp : Provider) (code : option string)
  : M unit :=
  if negb (truthy code) then emit (Redirect 302 "/")
  else
    let init := tokenRequest env idp (nullish code "") in
    emit (Fetch "https://huggingface.co/oauth/token" init) ;;;
    response <- Eff.await (oauth_token idp init) ;;
    if negb (truthy (access_token response)) then emit (Redirect 302 "/")
    else
      emit (Cookie "hf_token" (nullish (access_token response) "")
                   sessionCookie) ;;;
      emit (Redirect 302 "/").



(** A handler run from an empty trace: whether it returned, and what it
    did. *)
Definition run (m : M unit) : result unit * list Event := m [].

(** *** Vocabulary of the properties *)

Definition isCookie (e : Event) : bool :=
  match e with Cookie _ _ _ => true | _ => false end.
Definition isFetch (e : Event) : bool :=
  match e with Fetch _ _ => true | _ => false end.

End Auth.

(* ================================================================== *)
(** ** Vocabulary for the shape of a slug and of a run *)
(* ================================================================== *)

Module Shape.

(** Every character of [s] satisfies [p]. *)
Fixpoint allChars (p : ascii -> bool) (s : string) : bool :=
  match s with
  | EmptyString => true
  | String c s' => p c && allChars p s'
  end.

Definition isSep (c : ascii) : bool := Ascii.eqb c "-".

(** The characters of a slug: lower-case letters, digits, the hyphen. *)
Definition slugChar (c : ascii) : bool := inClass_az09 c || isSep c.

Fixpoint endsWithSep (s : string) : bool :=
  match s with
  | EmptyString => false
  | String c EmptyString => isSep c
  | String _ s' => endsWithSep s'
  end.

(** The events that finish a response of the generate route. *)
Definition finishes (e : AskAi.Event) : bool :=
  match e with
  | AskAi.End_ | AskAi.Send _ _ => true
  | _ => false
  end.

Definition isUpload (c : Deploy.HubCall) : bool :=
  match c with Deploy.CallUploadFiles _ _ _ => true | _ => false end.

Definition tokenOf (c : Deploy.HubCall) : option string :=
  match c with
  | Deploy.CallWhoAmI t => t
  | Deploy.CallCreateRepo _ t => t
  | Deploy.CallUploadFiles _ _ t => t
  end.

End Shape.

(* ================================================================== *)
(** ** The outcomes of a publish request *)
(* ================================================================== *)

Module Publish.

Import Deploy.

(** The five ways a publish request can go. *)
Inductive Outcome (hub : Hub) (req : Req) : option Reply * list HubCall -> Prop :=
| Rejected :
    Outcome hub req (Some invalidRequest, [])
| Overwritten (h p : string) :
    path (body req) = Some p -> truthy (Some p) = true ->
    Outcome hub req
      (Some (uploadReply
               (uploadFiles hub (space p) [indexFile h] (hf_token req)) p),
       [CallUploadFiles (space p) [indexFile h] (hf_token req)])
| LookupFailed (e : string) :
    truthy (path (body req)) = false ->
    Outcome hub req
      (Some {| status := 500; payload := Failure e |},
       [CallWhoAmI (hf_token req)])
| CreationFailed (username t e : string) :
    truthy (path (body req)) = false ->
    Outcome hub req
      (Some {| status := 500; payload := Failure e |},
       [CallWhoAmI (hf_token req);
        CallCreateRepo (space (username +:+ "/" +:+ newTitle t))
                       (hf_token req)])
| Created (username t doc : string) :
    truthy (path (body req)) = false ->
    Outcome hub req
      (Some (uploadReply
               (uploadFiles hub (space (username +:+ "/" +:+ newTitle t))
                  [indexFile doc; readmeFile (newTitle t)] (hf_token req))
               (username +:+ "/" +:+ newTitle t)),
       [CallWhoAmI (hf_token req);
        CallCreateRepo (space (username +:+ "/" +:+ newTitle t))
                       (hf_token req);
        CallUploadFiles (space (username +:+ "/" +:+ newTitle t))
          [indexFile doc; readmeFile (newTitle t)] (hf_token req)]).

End Publish.

(* ================================================================== *)
(** ** More sample collaborators *)
(* ================================================================== *)

Module Samples.

(** A platform on which the space to create exists already. *)
Definition conflictHub : Deploy.Hub :=
  {| Deploy.whoAmI := fun _ => Ok "alice";
     Deploy.createRepo := fun _ _ => Thrown "409 Conflict";
     Deploy.uploadFiles := fun _ _ _ => Ok tt |}.

(** The overwrite that follows the creation of [Demo.createRequest]. *)
Definition secondVersion : Deploy.Req :=
  {| Deploy.body := {| Deploy.html := Some "<html><body>v2</body></html>";
                       Deploy.title := Some "My Cool App!!";
                       Deploy.path := Some "alice/my-cool-app" |};
     Deploy.hf_token := Some "hf_token_of_alice" |}.

(** A completion that ends before the document is closed. *)
Definition unfinished : list AskAi.Chunk.t :=
  [Demo.chunkOf "<html><body>"; Demo.chunkOf "hi"].
Definition unfinishedGateway : AskAi.Gateway :=
  {| AskAi.models_list := fun _ _ => Ok tt;
     AskAi.chat_completions_create := fun _ _ =>
       Ok (map AskAi.Yield unfinished) |}.

(** The login routes: nothing configured but the client, and a provider
    that grants a token for any code. *)
Definition loginEnv : Auth.ProcessEnv :=
  {| Auth.env_APP_PORT := None;
     Auth.env_REDIRECT_URI := None;
     Auth.env_OAUTH_CLIENT_ID := Some "client";
     Auth.env_OAUTH_CLIENT_SECRET := Some "secret" |}.
Definition grantingProvider : Auth.Provider :=
  {| Auth.base64 := fun s => s;
     Auth.oauth_token := fun _ => Ok {| Auth.access_token := Some "hf_abc" |};
     Auth.oauth_userinfo := fun _ => Ok "{}" |}.
Definition unreachableProvider : Auth.Provider :=
  {| Auth.base64 := fun s => s;
     Auth.oauth_token := fun _ => Thrown "fetch failed";
     Auth.oauth_userinfo := fun _ => Thrown "fetch failed" |}.


(** A request whose target is the empty string and whose document closes
    its body with a blank before the bracket, as HTML allows. *)
Definition emptyPathSpacedTag : Deploy.Req :=
  {| Deploy.body := {| Deploy.html := Some "<body>hi</body >";
                       Deploy.title := Some "My Cool App!!";
                       Deploy.path := Some "" |};
     Deploy.hf_token := Some "hf_token_of_alice" |}.

(** A completion whose first chunk carries a delta without content, as
    the chunk that announces the role does, and which breaks after it. *)
Definition roleChunk : AskAi.Chunk.t :=
  {| AskAi.Chunk.choices :=
       [{| AskAi.Chunk.delta := Some {| AskAi.Chunk.content := None |} |}] |}.
Definition silentStartGateway : AskAi.Gateway :=
  {| AskAi.models_list := fun _ _ => Ok tt;
     AskAi.chat_completions_create := fun _ _ =>
       Ok [AskAi.Yield roleChunk; AskAi.Raise "socket hang up"] |}.

End Samples.

(* ================================================================== *)
(** ** Facts about the string primitives *)
(* ================================================================== *)

#[local] Arguments String.append !_ _ / : simpl nomatch.

Section StringFacts.

Lemma append_empty_r (s : string) : s +:+ "" = s.
Proof. induction s as [|c s IH]; simpl; [reflexivity | now rewrite IH]. Qed.

Lemma append_assoc (a b c : string) : (a +:+ b) +:+ c = a +:+ b +:+ c.
Proof. induction a as [|x a IH]; simpl; [reflexivity | now rewrite IH]. Qed.

Lemma length_append (a b : string) :
  String.length (a +:+ b) = String.length a + String.length b.
Proof. induction a as [|x a IH]; simpl; [reflexivity | now rewrite IH]. Qed.

Lemma startsWith_iff (t s : string) :
  startsWith t s = true <-> exists b, s = t +:+ b.
Proof.
  revert s; induction t as [|a t IH]; intros s; simpl.
  - split; [intros _; now exists s | reflexivity].
  - destruct s as [|b s].
    + split; [discriminate | intros [r Hr]; discriminate].
    + rewrite andb_true_iff, Ascii.eqb_eq, IH. split.
      * intros [-> [r ->]]. now exists r.
      * intros [r Hr]. injection Hr as -> ->. split; [reflexivity | now exists r].
Qed.

Lemma sliceFrom_append (t b : string) :
  sliceFrom (String.length t) (t +:+ b) = b.
Proof. induction t as [|a t IH]; simpl; [now destruct b | exact IH]. Qed.

(** [includes] finds exactly the substrings. *)
Lemma includes_iff (s t : string) :
  includes s t = true <-> exists a b, s = a +:+ t +:+ b.
Proof.
  induction s as [|c s IH].
  - simpl. rewrite orb_false_r, startsWith_iff. split.
    + intros [b Hb]. now exists "", b.
    + intros [a [b Hab]]. destruct a; [now exists b | discriminate].
  - cbn [includes]. rewrite orb_true_iff, startsWith_iff, IH. split.
    + intros [[b Hb] | [a [b Hab]]].
      * now exists "", b.
      * exists (String c a), b. simpl. now rewrite Hab.
    + intros [a [b Hab]]. destruct a as [|x a].
      * left. now exists b.
      * right. simpl in Hab. injection Hab as _ ->. now exists a, b.
Qed.

Lemma includes_false_iff (s t : string) :
  includes s t = false <-> forall a b, s <> a +:+ t +:+ b.
Proof.
  split.
  - intros H a b E.
    assert (includes s t = true) by (apply includes_iff; eauto).
    congruence.
  - intros H. destruct (includes s t) eqn:E; [|reflexivity].
    apply includes_iff in E as [a [b E]]. now apply H in E.
Qed.

(** A string without occurrence of the pattern is left as it is. *)
Lemma replaceFirst_absent (pat repl s : string) :
  includes s pat = false -> replaceFirst pat repl s = s.
Proof.
  induction s as [|c s IH]; cbn [includes replaceFirst]; intros H;
    apply orb_false_iff in H as [H1 H2]; rewrite H1.
  - reflexivity.
  - now rewrite IH.
Qed.

(** The replacement is put in the place of the first occurrence: the
    one with the shortest text before it. *)
Lemma replaceFirst_first (pat repl s : string) :
  includes s pat = true ->
  exists pre post,
    s = pre +:+ pat +:+ post
    /\ (forall pre' post',
          s = pre' +:+ pat +:+ post' ->
          String.length pre <= String.length pre')
    /\ replaceFirst pat repl s = pre +:+ repl +:+ post.
Proof.
  induction s as [|c s IH]; cbn [includes replaceFirst]; intros H.
  - rewrite orb_false_r in H. rewrite H.
    apply startsWith_iff in H as [b Hb].
    exists "", b. repeat split; [exact Hb | simpl; lia |].
    simpl. now rewrite Hb at 1; rewrite sliceFrom_append.
  - destruct (startsWith pat (String c s)) eqn:E.
    + apply startsWith_iff in E as [b Hb].
      exists "", b. repeat split; [exact Hb | simpl; lia |].
      simpl. now rewrite Hb, sliceFrom_append.
    + simpl in H. destruct (IH H) as [pre [post [Hs [Hmin Hr]]]].
      exists (String c pre), post. repeat split.
      * simpl. now rewrite <- Hs.
      * intros pre' post' E'. destruct pre' as [|x pre'].
        -- assert (startsWith pat (String c s) = true)
             by (apply startsWith_iff; now exists post').
           congruence.
        -- simpl in E'. injection E' as _ E'. simpl.
           apply le_n_S. now apply (Hmin pre' post').
      * simpl. now rewrite Hr.
Qed.

End StringFacts.

(* ================================================================== *)
(** ** The slug of the source is the slug of the specification *)
(* ================================================================== *)

Section SlugFacts.

Import SlugSpec.

Lemma inClass_not_sep (c : ascii) :
  inClass_az09 c = true -> Ascii.eqb c "-" = false.
Proof.
  intros H. destruct (Ascii.eqb c "-") eqn:E; [|reflexivity].
  apply Ascii.eqb_eq in E. subst c. discriminate H.
Qed.





Lemma replaceRuns_noDoubleSep (s : string) :
  forall b,
    noDoubleSep (replaceRuns b s)
    /\ (b = true -> startsWithSep (replaceRuns b s) = false).
Proof.
  induction s as [|c s IH]; intros b; cbn [replaceRuns].
  - now split.
  - destruct (inClass_az09 c) eqn:E.
    + destruct (IH false) as [Hn _]. split.
      * split; [|exact Hn]. intros Hc.
        rewrite (inClass_not_sep c E) in Hc. discriminate.
      * intros _. simpl. exact (inClass_not_sep c E).
    + destruct (IH true) as [Hn Hs]. destruct b.
      * split; [exact Hn | intros _; now apply Hs].
      * split; [|discriminate].
        split; [intros _; now apply Hs | exact Hn].
Qed.

Lemma split_not_nil (sep : ascii) (s : string) : split sep s <> [].
Proof.
  destruct s as [|c s]; simpl; [discriminate|].
  destruct (Ascii.eqb c sep); [discriminate|].
  destruct (split sep s); discriminate.
Qed.

(** No piece starts with the separator. *)
Lemma split_pieces_head (s : string) :
  Forall (fun w => startsWithSep w = false) (split "-" s).
Proof.
  induction s as [|c s IH]; simpl.
  - now constructor.
  - destruct (Ascii.eqb c "-") eqn:E.
    + now constructor.
    + destruct (split "-" s) as [|w ws]; constructor; simpl; auto.
      now inversion IH.
Qed.

Lemma split_first_empty (s w : string) (ws : list string) :
  split "-" s = w :: ws -> w = "" -> s = "" \/ startsWithSep s = true.
Proof.
  destruct s as [|c s]; [now left|]. simpl. intros H Hw. right.
  destruct (Ascii.eqb c "-"); [reflexivity|].
  destruct (split "-" s); injection H as <- _; discriminate.
Qed.

Lemma join_cons_char (sep : string) (c : ascii) (w : string) (fs : list string) :
  join sep (String c w :: fs) = String c (join sep (w :: fs)).
Proof. unfold join. simpl. now destruct fs. Qed.

Lemma join_empty_head (f : string) (fs : list string) :
  join "-" ("" :: f :: fs) = String "-" (join "-" (f :: fs)).
Proof. reflexivity. Qed.

Lemma join_head_nonempty (sep w : string) (fs : list string) :
  w <> "" -> join sep (w :: fs) <> "".
Proof.
  intros Hw. destruct w as [|c w]; [congruence|].
  rewrite join_cons_char. discriminate.
Qed.

Lemma filterNonEmpty_cons (w : string) (ws : list string) :
  filterNonEmpty (w :: ws)
  = if String.eqb w "" then filterNonEmpty ws else w :: filterNonEmpty ws.
Proof. unfold filterNonEmpty. simpl. now destruct (String.eqb w ""). Qed.

(** Trimming the end of a string without doubled separator is joining
    its first piece and its non-empty later pieces. *)
Lemma trimTrailing_join (s : string) :
  forall w ws,
    noDoubleSep s ->
    split "-" s = w :: ws ->
    trimTrailing s = join "-" (w :: filterNonEmpty ws).
Proof.
  induction s as [|c s IH]; intros w ws Hn Hs.
  - simpl in Hs. injection Hs as <- <-. reflexivity.
  - destruct Hn as [Hc Hn]. cbn [split] in Hs. cbn [trimTrailing].
    destruct (Ascii.eqb c "-") eqn:E.
    + injection Hs as <- <-.
      destruct (split "-" s) as [|w2 ws2] eqn:E2;
        [now apply split_not_nil in E2|].
      rewrite (IH w2 ws2 Hn eq_refl). rewrite filterNonEmpty_cons.
      destruct (String.eqb_spec w2 "") as [-> | Hw2].
      * destruct (split_first_empty s "" ws2 E2 eq_refl) as [-> | Hsep].
        -- simpl in E2. injection E2 as <-. reflexivity.
        -- rewrite (Hc eq_refl) in Hsep. discriminate.
      * pose proof (join_head_nonempty "-" w2 (filterNonEmpty ws2) Hw2) as Hne.
        rewrite join_empty_head.
        apply Ascii.eqb_eq in E. subst c.
        now destruct (join "-" (w2 :: filterNonEmpty ws2)).
    + destruct (split "-" s) as [|w' ws'] eqn:E2;
        [now apply split_not_nil in E2|].
      injection Hs as <- <-.
      rewrite (IH w' ws' Hn eq_refl), join_cons_char.
      now destruct (join "-" (w' :: filterNonEmpty ws')).
Qed.

Lemma trimLeading_id (s : string) :
  startsWithSep s = false -> trimLeading s = s.
Proof. destruct s as [|c s]; simpl; [reflexivity | now intros ->]. Qed.

Lemma startsWithSep_join (w : string) (fs : list string) :
  w <> "" -> startsWithSep w = false ->
  startsWithSep (join "-" (w :: fs)) = false.
Proof.
  destruct w as [|c w]; [congruence|]. intros _ H.
  now rewrite join_cons_char.
Qed.

Lemma filterNonEmpty_heads (ws : list string) :
  Forall (fun w => startsWithSep w = false) ws ->
  Forall (fun w => w <> "" /\ startsWithSep w = false) (filterNonEmpty ws).
Proof.
  induction 1 as [|w ws Hw _ IH]; [constructor|].
  rewrite filterNonEmpty_cons.
  destruct (String.eqb_spec w ""); [exact IH | now constructor].
Qed.

(** [split], [filter(Boolean)], [join]: trimming at both ends. *)
Lemma split_filter_join_trim (s : string) :
  noDoubleSep s ->
  join "-" (filterNonEmpty (split "-" s)) = trimLeading (trimTrailing s).
Proof.
  intros Hn. pose proof (split_pieces_head s) as Hh.
  destruct (split "-" s) as [|w ws] eqn:E; [now apply split_not_nil in E|].
  rewrite (trimTrailing_join s w ws Hn E).
  inversion Hh as [|? ? Hw Hws]; subst.
  rewrite filterNonEmpty_cons.
  destruct (String.eqb_spec w "") as [-> | Hne].
  - pose proof (filterNonEmpty_heads ws Hws) as Hf.
    destruct (filterNonEmpty ws) as [|f fs]; [reflexivity|].
    inversion Hf as [|? ? [Hf1 Hf2] _]; subst.
    rewrite join_empty_head.
    cbn [trimLeading]. rewrite Ascii.eqb_refl.
    symmetry. apply trimLeading_id. now apply startsWithSep_join.
  - symmetry. apply trimLeading_id. now apply startsWithSep_join.
Qed.


Lemma slice0_length (n : nat) (s : string) : String.length (slice0 n s) <= n.
Proof.
  revert s; induction n as [|n IH]; intros [|c s]; simpl; try lia.
  specialize (IH s). lia.
Qed.

End SlugFacts.

(* ================================================================== *)
(** ** The failover prober *)
(* ================================================================== *)

Section ProberFacts.

Import AskAi.

Variable gw : Gateway.

Lemma fails_or_passes (i : nat) (k : string) : fails gw i k \/ passes gw i k.
Proof.
  unfold fails, passes. destruct (models_list gw i (clientOf k)) as [[]|e].
  - now right.
  - left. now exists e.
Qed.

Lemma fails_not_passes (i : nat) (k : string) : fails gw i k -> ~ passes gw i k.
Proof. intros [e He] Hp. unfold passes in Hp. congruence. Qed.

Lemma allFail_nil (i : nat) : allFail gw i [].
Proof. intros m k H. discriminate. Qed.

Lemma allFail_cons (i : nat) (k : string) (keys : list string) :
  allFail gw i (k :: keys) <-> fails gw i k /\ allFail gw (S i) keys.
Proof.
  split.
  - intros H. split.
    + specialize (H 0 k eq_refl). now rewrite Nat.add_0_r in H.
    + intros m k' Hk. specialize (H (S m) k' Hk).
      now rewrite Nat.add_succ_r in H.
  - intros [H0 H] [|m] k' Hk; simpl in Hk.
    + injection Hk as <-. now rewrite Nat.add_0_r.
    + rewrite Nat.add_succ_r. now apply (H m).
Qed.

(** One iteration of the loop. *)
Lemma loop_step (keys : list string) (n i : nat) (st : St) :
  getWorkingClientFrom gw keys (S n) i st
  = let client := {| baseURL := "https://openrouter.ai/api/v1";
                     apiKey := keys !! i |} in
    match models_list gw i client with
    | Ok _ => (Ok client, probing st i [ModelsList client])
    | Thrown _ =>
        getWorkingClientFrom gw keys n (S i)
          (probing st i
             [ModelsList client;
              Warn ("API key " +:+ pretty (i + 1) +:+ " failed, trying next...")])
    end.
Proof.
  cbn [getWorkingClientFrom].
  cbv [Eff.bind Eff.tryCatch setApiKeyIndex createOpenAIClient emit
       Eff.modify Eff.get Eff.ret Eff.await probing
       apiKeyIndex completeResponse headersSent trace].
  destruct (models_list gw i _); [reflexivity|].
  now rewrite <- app_assoc.
Qed.

Lemma loop_exhausted (keys : list string) (i : nat) (st : St) :
  getWorkingClientFrom gw keys 0 i st
  = (Thrown "No available OpenRouter API key.", st).
Proof. reflexivity. Qed.

(** The loop reaches the first key that passes, and stops there. *)
Lemma loop_pass (before : list string) :
  forall (pre : list string) (k : string) (after : list string) (st : St),
    allFail gw (length pre) before ->
    passes gw (length pre + length before) k ->
    exists st',
      getWorkingClientFrom gw (pre ++ before ++ k :: after)
        (length before + S (length after)) (length pre) st
      = (Ok (clientOf k), st')
      /\ apiKeyIndex st' = length pre + length before
      /\ extends st st'
           (failTrace (length pre) before ++ [ModelsList (clientOf k)]).
Proof.
  induction before as [|b before IH]; intros pre k after st Hf Hp.
  - cbn [length Nat.add app]. rewrite loop_step. cbn zeta.
    rewrite Nat.add_0_r in Hp.
    rewrite (list_lookup_middle pre after k (length pre) eq_refl).
    fold (clientOf k). rewrite Hp.
    eexists; split; [reflexivity|]. rewrite Nat.add_0_r.
    repeat split.
  - apply allFail_cons in Hf as [[e He] Hf].
    cbn [length Nat.add app]. rewrite loop_step. cbn zeta.
    rewrite (list_lookup_middle pre (before ++ k :: after) b (length pre) eq_refl).
    fold (clientOf b). rewrite He.
    set (st1 := probing st (length pre) _).
    specialize (IH (pre ++ [b]) k after st1).
    rewrite length_app in IH. cbn [length] in IH.
    rewrite Nat.add_1_r in IH. rewrite <- app_assoc in IH. cbn [app] in IH.
    destruct IH as [st' [Hrun [Hidx [Htr [Hh Hc]]]]]; [exact Hf | |].
    + cbn [length] in Hp. rewrite Nat.add_succ_r in Hp. exact Hp.
    + exists st'. split; [exact Hrun|]. split; [cbn [length]; lia|].
      repeat split; [|exact Hh|exact Hc].
      rewrite Htr. subst st1. unfold probing. cbn [trace failTrace].
      now rewrite <- app_assoc.
Qed.

(** When every probe fails gw the loop runs through the pool and throws. *)
Lemma loop_fail (rest : list string) :
  forall (pre : list string) (st : St),
    allFail gw (length pre) rest ->
    exists st',
      getWorkingClientFrom gw (pre ++ rest) (length rest) (length pre) st
      = (Thrown "No available OpenRouter API key.", st')
      /\ extends st st' (failTrace (length pre) rest).
Proof.
  induction rest as [|b rest IH]; intros pre st Hf.
  - exists st. split; [reflexivity|]. repeat split.
    cbn. now rewrite app_nil_r.
  - apply allFail_cons in Hf as [[e He] Hf].
    cbn [length]. rewrite loop_step. cbn zeta.
    rewrite (list_lookup_middle pre rest b (length pre) eq_refl).
    fold (clientOf b). rewrite He.
    set (st1 := probing st (length pre) _).
    specialize (IH (pre ++ [b]) st1).
    rewrite length_app in IH. cbn [length] in IH.
    rewrite Nat.add_1_r in IH. rewrite <- app_assoc in IH. cbn [app] in IH.
    destruct (IH Hf) as [st' [Hrun [Htr [Hh Hc]]]].
    exists st'. split; [exact Hrun|].
    repeat split; [|exact Hh|exact Hc].
    rewrite Htr. subst st1. unfold probing. cbn [trace failTrace].
    now rewrite <- app_assoc.
Qed.

(** A pool in which some key passes gw splits at the first one that does. *)
Lemma first_passing (keys : list string) :
  forall i,
    (exists m k, keys !! m = Some k /\ passes gw (i + m) k) ->
    exists before k after,
      keys = before ++ k :: after
      /\ allFail gw i before
      /\ passes gw (i + length before) k.
Proof.
  induction keys as [|x keys IH]; intros i [m [k [Hk Hp]]].
  - discriminate.
  - destruct (fails_or_passes i x) as [Hx | Hx].
    + destruct m as [|m].
      * simpl in Hk. injection Hk as ->. rewrite Nat.add_0_r in Hp.
        now apply fails_not_passes in Hx.
      * simpl in Hk. rewrite Nat.add_succ_r in Hp.
        destruct (IH (S i)) as [before [k' [after [-> [Hf Hp']]]]];
          [now exists m, k|].
        exists (x :: before), k', after. split; [reflexivity|]. split.
        -- now apply allFail_cons.
        -- cbn [length]. now rewrite Nat.add_succ_r.
    + exists [], x, keys. split; [reflexivity|]. split.
      * apply allFail_nil.
      * cbn [length]. now rewrite Nat.add_0_r.
Qed.

(** A pool fails gw as a whole, or some key of it passes. *)
Lemma allFail_or_passing (keys : list string) :
  forall i,
    allFail gw i keys \/ exists m k, keys !! m = Some k /\ passes gw (i + m) k.
Proof.
  induction keys as [|x keys IH]; intros i.
  - left. apply allFail_nil.
  - destruct (fails_or_passes i x) as [Hx | Hx].
    + destruct (IH (S i)) as [Hf | [m [k [Hk Hp]]]].
      * left. now apply allFail_cons.
      * right. exists (S m), k. split; [exact Hk|].
        now rewrite Nat.add_succ_r.
    + right. exists 0, x. split; [reflexivity|]. now rewrite Nat.add_0_r.
Qed.

Lemma probed_failTrace (i : nat) (keys : list string) :
  probed (failTrace i keys) = map clientOf keys.
Proof.
  revert i; induction keys as [|k keys IH]; intros i; [reflexivity|].
  cbn. now rewrite IH.
Qed.

Lemma written_failTrace (i : nat) (keys : list string) :
  written (failTrace i keys) = [].
Proof.
  revert i; induction keys as [|k keys IH]; intros i; [reflexivity|].
  cbn. now rewrite IH.
Qed.

End ProberFacts.

(* ================================================================== *)
(** ** The streaming relay and the handler of the generate route *)
(* ================================================================== *)

Section RelayFacts.

Import AskAi.

Lemma relay_step (chunk : Chunk.t) (rest : list StreamItem) (st : St) :
  relay (Yield chunk :: rest) st
  = let st1 := wrote st (contentOf chunk) in
    if includes (completeResponse st1) closingTag then (Ok tt, st1)
    else relay rest st1.
Proof.
  cbn [relay].
  cbv [Eff.bind res_write appendResponse markHeadersSent emit Eff.modify
       Eff.get Eff.ret wrote contentOf closingTag
       apiKeyIndex completeResponse headersSent trace].
  now destruct (includes _ _).
Qed.

Lemma buffer_cons (c : Chunk.t) (cs : list Chunk.t) :
  buffer (c :: cs) = contentOf c +:+ buffer cs.
Proof. reflexivity. Qed.

Lemma stopsAt_not_nil (cs : list Chunk.t) : stopsAt "" cs -> cs <> [].
Proof. intros [H _] ->. discriminate H. Qed.

(** The relay writes the chunks up to the one that completes the tag,
    and reads nothing of what follows. *)
Lemma relay_stop (cs : list Chunk.t) :
  forall (st : St) (rest : list StreamItem),
    cs <> [] ->
    stopsAt (completeResponse st) cs ->
    exists st',
      relay (map Yield cs ++ rest) st = (Ok tt, st')
      /\ trace st' = trace st ++ map Write (map contentOf cs)
      /\ headersSent st' = true
      /\ completeResponse st' = completeResponse st +:+ buffer cs.
Proof.
  induction cs as [|c cs IH]; intros st rest Hne [Hin Hbefore]; [congruence|].
  cbn [map app]. rewrite relay_step. cbn zeta.
  destruct cs as [|c2 cs].
  - cbn [buffer fold_right] in Hin. rewrite append_empty_r in Hin.
    cbn [wrote completeResponse]. rewrite Hin.
    eexists; split; [reflexivity|]. cbn.
    now rewrite append_empty_r.
  - pose proof (Hbefore [c] (c2 :: cs) eq_refl ltac:(discriminate)) as H1.
    cbn [buffer fold_right] in H1. rewrite append_empty_r in H1.
    cbn [wrote completeResponse]. rewrite H1.
    destruct (IH (wrote st (contentOf c)) rest) as [st' [Hr [Ht [Hh Hc]]]].
    + discriminate.
    + cbn [wrote completeResponse]. split.
      * now rewrite append_assoc, <- buffer_cons.
      * intros cs1 cs2 E Hcs2. rewrite append_assoc, <- buffer_cons.
        apply (Hbefore (c :: cs1) cs2); [|exact Hcs2].
        cbn [app]. now rewrite E.
    + exists st'. split; [exact Hr|]. split; [|split; [exact Hh|]].
      * rewrite Ht. cbn [wrote trace map]. now rewrite <- app_assoc.
      * rewrite Hc. cbn [wrote completeResponse].
        now rewrite append_assoc, <- buffer_cons.
Qed.

(** A stream that ends before the tag shows is relayed in full. *)
Lemma relay_exhausted (cs : list Chunk.t) :
  forall (st : St),
    (forall cs1 cs2, cs = cs1 ++ cs2 -> cs1 <> [] ->
                     includes (completeResponse st +:+ buffer cs1) closingTag = false) ->
    exists st',
      relay (map Yield cs) st = (Ok tt, st')
      /\ trace st' = trace st ++ map Write (map contentOf cs)
      /\ completeResponse st' = completeResponse st +:+ buffer cs.
Proof.
  induction cs as [|c cs IH]; intros st Hno.
  - exists st. split; [reflexivity|]. cbn.
    now rewrite app_nil_r, append_empty_r.
  - cbn [map]. rewrite relay_step. cbn zeta.
    pose proof (Hno [c] cs eq_refl ltac:(discriminate)) as H1.
    cbn [buffer fold_right] in H1. rewrite append_empty_r in H1.
    cbn [wrote completeResponse]. rewrite H1.
    destruct (IH (wrote st (contentOf c))) as [st' [Hr [Ht Hc]]].
    + intros cs1 cs2 E Hcs1. cbn [wrote completeResponse].
      rewrite append_assoc, <- buffer_cons.
      apply (Hno (c :: cs1) cs2); [|discriminate].
      cbn [app]. now rewrite E.
    + exists st'. split; [exact Hr|]. split.
      * rewrite Ht. cbn [wrote trace map]. now rewrite <- app_assoc.
      * rewrite Hc. cbn [wrote completeResponse].
        now rewrite append_assoc, <- buffer_cons.
Qed.

Lemma written_app (tr1 tr2 : list Event) :
  written (tr1 ++ tr2) = written tr1 ++ written tr2.
Proof. apply flat_map_app. Qed.

Lemma written_writes (ss : list string) : written (map Write ss) = ss.
Proof. induction ss as [|s ss IH]; [reflexivity|]. cbn. now f_equal. Qed.

Lemma flagTracksWrites_wrote (st : St) (content : string) :
  flagTracksWrites (wrote st content).
Proof.
  unfold flagTracksWrites. cbn [wrote headersSent trace].
  rewrite written_app. split; [|reflexivity].
  intros _ H. apply app_eq_nil in H as [_ H]. discriminate.
Qed.

(** Whatever the stream does, the flag follows the writes. *)
Lemma relay_flag (items : list StreamItem) :
  forall (st : St) r st',
    relay items st = (r, st') -> flagTracksWrites st -> flagTracksWrites st'.
Proof.
  induction items as [|[chunk|message] items IH]; intros st r st' Hr Hinv.
  - cbn in Hr. injection Hr as _ <-. exact Hinv.
  - rewrite relay_step in Hr. cbn zeta in Hr.
    destruct (includes _ closingTag).
    + injection Hr as _ <-. apply flagTracksWrites_wrote.
    + apply (IH _ _ _ Hr). apply flagTracksWrites_wrote.
  - cbn in Hr. injection Hr as _ <-. exact Hinv.
Qed.

End RelayFacts.

Section HandlerFacts.

Import AskAi.

Variable env : Env.
Variable gw : Gateway.
Variable b : Body.

Lemma getWorkingClient_pass (before : list string) (k : string)
      (after : list string) (st : St) :
  allFail gw 0 before ->
  passes gw (length before) k ->
  exists st',
    getWorkingClient gw (before ++ k :: after) st = (Ok (clientOf k), st')
    /\ apiKeyIndex st' = length before
    /\ extends st st' (failTrace 0 before ++ [ModelsList (clientOf k)]).
Proof.
  intros Hf Hp. unfold getWorkingClient.
  rewrite length_app. cbn [length].
  exact (loop_pass gw before [] k after st Hf Hp).
Qed.

Lemma getWorkingClient_fail (keys : list string) (st : St) :
  allFail gw 0 keys ->
  exists st',
    getWorkingClient gw keys st
    = (Thrown "No available OpenRouter API key.", st')
    /\ extends st st' (failTrace 0 keys).
Proof. intros Hf. exact (loop_fail gw keys [] st Hf). Qed.

(** The prober touches neither the response nor the buffer. *)
Lemma getWorkingClientFrom_frame (keys : list string) (n : nat) :
  forall i st r st',
    getWorkingClientFrom gw keys n i st = (r, st') ->
    headersSent st' = headersSent st
    /\ completeResponse st' = completeResponse st
    /\ written (trace st') = written (trace st).
Proof.
  induction n as [|n IH]; intros i st r st' H.
  - rewrite loop_exhausted in H. injection H as _ <-. repeat split.
  - rewrite loop_step in H. cbn zeta in H.
    destruct (models_list gw i _).
    + injection H as _ <-. cbn [probing headersSent completeResponse trace].
      repeat split. rewrite written_app. cbn. now rewrite app_nil_r.
    + apply IH in H as [Hh [Hc Hw]].
      cbn [probing headersSent completeResponse trace] in *.
      repeat split; [exact Hh | exact Hc |].
      rewrite Hw, written_app. cbn. now rewrite app_nil_r.
Qed.

Lemma run_missing_prompt :
  truthy (prompt b) = false ->
  run env gw b = [Send 400 "Missing required fields"].
Proof. intros H. unfold run, handler. now rewrite H. Qed.

Lemma run_tryCatch :
  truthy (prompt b) = true ->
  run env gw b = trace (snd (Eff.tryCatch (generate env gw b) onError opened)).
Proof. intros H. unfold run, handler. now rewrite H. Qed.

(** The [try] block, outcome by outcome. *)
Lemma generate_eval (st : St) :
  generate env gw b st
  = match getWorkingClient gw (openRouterKeys env) st with
    | (Ok openai, st1) =>
        let st2 := logged st1 [ChatCreate openai (chatParams b)] in
        match chat_completions_create gw openai (chatParams b) with
        | Ok items =>
            match relay items st2 with
            | (Ok _, st3) => (Ok tt, closed st3)
            | (Thrown e, st3) => (Thrown e, st3)
            end
        | Thrown e => (Thrown e, st2)
        end
    | (Thrown e, st1) => (Thrown e, st1)
    end.
Proof.
  unfold generate, Eff.bind at 1.
  destruct (getWorkingClient gw (openRouterKeys env) st) as [[openai|e] st1];
    [|reflexivity].
  cbv [Eff.bind emit Eff.modify Eff.await logged].
  destruct (chat_completions_create gw openai (chatParams b)) as [items|e];
    [|reflexivity].
  destruct (relay items _) as [[[]|e] st3]; reflexivity.
Qed.

(** The [catch] block. *)
Lemma onError_trace (message : string) (st : St) :
  exists st',
    onError message st = (Ok tt, st')
    /\ trace st'
       = trace st ++ [ConsoleError message;
                      if headersSent st then End_ else Send 500 tokenLimitHint].
Proof.
  unfold onError.
  cbv [Eff.bind emit Eff.modify Eff.get res_send res_end markHeadersSent
       apiKeyIndex completeResponse headersSent trace].
  destruct st as [i cr [|] tr]; cbn;
    eexists; (split; [reflexivity|]); cbn; now rewrite <- app_assoc.
Qed.

(** A thrown [try] block leaves the flag in step with the writes. *)
Lemma generate_thrown_flag (e : string) (st1 : St) :
  generate env gw b opened = (Thrown e, st1) -> flagTracksWrites st1.
Proof.
  rewrite generate_eval. unfold getWorkingClient.
  destruct (getWorkingClientFrom gw _ _ 0 opened) as [[openai|e0] st0] eqn:E;
    apply getWorkingClientFrom_frame in E as [Hh [Hc Hw]];
    cbn [opened headersSent trace] in Hh, Hw; cbn in Hw.
  - cbn zeta.
    assert (flagTracksWrites (logged st0 [ChatCreate openai (chatParams b)])) as Hinv.
    { unfold flagTracksWrites. cbn [logged headersSent trace].
      rewrite written_app, Hw, Hh. cbn. split; [discriminate | congruence]. }
    destruct (chat_completions_create gw openai (chatParams b)) as [items|e1].
    + destruct (relay items _) as [[[]|e2] st3] eqn:Er; [discriminate|].
      intros H. injection H as _ <-. exact (relay_flag _ _ _ _ Er Hinv).
    + intros H. injection H as _ <-. exact Hinv.
  - intros H. injection H as _ <-. unfold flagTracksWrites.
    rewrite Hw, Hh. split; [discriminate | congruence].
Qed.

End HandlerFacts.

(* ================================================================== *)
(** ** The publish pipeline *)
(* ================================================================== *)

Section DeployFacts.

Import Deploy.

Variable hub : Hub.

Lemma truthy_Some (s : string) : truthy (Some s) = true <-> s <> "".
Proof.
  unfold truthy. destruct (String.eqb_spec s ""); split; cbn; congruence.
Qed.

Lemma truthy_false (v : option string) :
  truthy v = false <-> v = None \/ v = Some "".
Proof.
  destruct v as [s|]; cbn.
  - destruct (String.eqb_spec s ""); cbn; split.
    + intros _. right. now subst.
    + reflexivity.
    + discriminate.
    + intros [H|H]; [discriminate | congruence].
  - split; [now left | reflexivity].
Qed.

(** A request without [html] or without [title] is answered [400]
    before anything is called. *)
Lemma run_invalid (req : Req) :
  truthy (html (body req)) = false \/ truthy (title (body req)) = false ->
  run hub req = (Some invalidRequest, []).
Proof.
  intros H. unfold run, handler.
  destruct H as [-> | ->]; cbn; [reflexivity|].
  now rewrite orb_true_r.
Qed.

(** The overwrite branch: one upload of the document as it came. *)
Lemma run_overwrite (req : Req) (h t p : string) :
  html (body req) = Some h -> truthy (Some h) = true ->
  title (body req) = Some t -> truthy (Some t) = true ->
  path (body req) = Some p -> truthy (Some p) = true ->
  run hub req
  = (Some (uploadReply
             (uploadFiles hub (space p) [indexFile h] (hf_token req)) p),
     [CallUploadFiles (space p) [indexFile h] (hf_token req)]).
Proof.
  intros Hh Hht Ht Htt Hp Hpt. unfold run, handler.
  rewrite Hh, Ht, Hp, Hht, Htt, Hpt. cbn [negb orb nullish].
  unfold Eff.tryCatch, publish. rewrite Hp, Hpt.
  assert (isEmptyString (Some p) = false) as ->.
  { cbn in *. now destruct (String.eqb p ""). }
  cbv [negb orb Eff.bind Eff.ret call Eff.modify Eff.await nullish truthy
       uploadReply space indexFile repoName app].
  now destruct (uploadFiles hub _ _ _).
Qed.

(** The create branch as far as the upload, the platform answering the
    identity lookup and the creation. *)
Lemma run_create (req : Req) (h t username : string) :
  html (body req) = Some h -> truthy (Some h) = true ->
  title (body req) = Some t -> truthy (Some t) = true ->
  truthy (path (body req)) = false ->
  whoAmI hub (hf_token req) = Ok username ->
  createRepo hub (space (username +:+ "/" +:+ newTitle t)) (hf_token req)
  = Ok tt ->
  let repo := space (username +:+ "/" +:+ newTitle t) in
  let files :=
    [indexFile (replaceFirst "</body>" (attribution +:+ "</body>") h);
     readmeFile (newTitle t)] in
  run hub req
  = (Some (uploadReply (uploadFiles hub repo files (hf_token req))
                       (username +:+ "/" +:+ newTitle t)),
     [CallWhoAmI (hf_token req);
      CallCreateRepo repo (hf_token req);
      CallUploadFiles repo files (hf_token req)]).
Proof.
  intros Hh Hht Ht Htt Hpt Hw Hc. cbn zeta. unfold run, handler.
  rewrite Hh, Ht, Hht, Htt, Hpt. cbn [negb orb nullish].
  unfold Eff.tryCatch, publish. rewrite Hpt, Ht. cbn [negb orb nullish].
  cbv [Eff.bind Eff.ret call Eff.modify Eff.await].
  rewrite Hw. cbn [repoType]. fold (space (username +:+ "/" +:+ newTitle t)).
  rewrite Hc.
  assert (truthy (Some (readmeText (newTitle t))) = true) as -> by reflexivity.
  cbv [nullish uploadReply space indexFile readmeFile repoName app].
  now destruct (uploadFiles hub _ _ _).
Qed.

End DeployFacts.

(* ================================================================== *)
(** ** Properties of the generate route *)
(* ================================================================== *)

Import AskAi.

Lemma probed_app (tr1 tr2 : list Event) :
  probed (tr1 ++ tr2) = probed tr1 ++ probed tr2.
Proof. apply flat_map_app. Qed.

Lemma created_app (tr1 tr2 : list Event) :
  created (tr1 ++ tr2) = created tr1 ++ created tr2.
Proof. apply flat_map_app. Qed.

Lemma created_failTrace (i : nat) (keys : list string) :
  created (failTrace i keys) = [].
Proof.
  revert i; induction keys as [|k keys IH]; intros i; [reflexivity|].
  cbn. apply IH.
Qed.

(** C1. In a pool in which some key passes its probe, [getWorkingClient]
    returns the client of the first key, in pool order, whose probe passes:
    every key before it was probed once and failed, and the probe of that
    key is the last one made, so that no later key is probed. *)
Theorem getWorkingClient_returns_first_passing
        (gw : Gateway) (keys : list string) (st : St) :
  (exists m k, keys !! m = Some k /\ passes gw m k) ->
  exists before k after st',
    keys = before ++ k :: after
    /\ allFail gw 0 before
    /\ passes gw (length before) k
    /\ getWorkingClient gw keys st = (Ok (clientOf k), st')
    /\ apiKeyIndex st' = length before
    /\ trace st' = trace st ++ failTrace 0 before ++ [ModelsList (clientOf k)]
    /\ probed (trace st') = probed (trace st) ++ map clientOf (before ++ [k]).
Proof.
  intros Hsome.
  destruct (first_passing gw keys 0 Hsome) as [before [k [after [-> [Hf Hp]]]]].
  cbn [Nat.add] in Hp.
  destruct (getWorkingClient_pass gw before k after st Hf Hp)
    as [st' [Hrun [Hidx [Htr _]]]].
  exists before, k, after, st'. repeat split; try assumption.
  rewrite Htr, !probed_app, probed_failTrace, map_app. reflexivity.
Qed.

Lemma getWorkingClient_returns_first_passing_witness :
  (exists m k, openRouterKeys Demo.env !! m = Some k /\ passes Demo.gateway m k)
  /\ exists before k after st',
       openRouterKeys Demo.env = before ++ k :: after
       /\ allFail Demo.gateway 0 before
       /\ passes Demo.gateway (length before) k
       /\ getWorkingClient Demo.gateway (openRouterKeys Demo.env) fresh
          = (Ok (clientOf k), st')
       /\ apiKeyIndex st' = length before
       /\ trace st'
          = trace fresh ++ failTrace 0 before ++ [ModelsList (clientOf k)]
       /\ probed (trace st')
          = probed (trace fresh) ++ map clientOf (before ++ [k]).
Proof.
  assert (exists m k, openRouterKeys Demo.env !! m = Some k
                      /\ passes Demo.gateway m k) as H
      by (exists 2, "sk-or-3"; split; reflexivity).
  split; [exact H|].
  exact (getWorkingClient_returns_first_passing
           Demo.gateway (openRouterKeys Demo.env) fresh H).
Defined.

(** C2. In a generation call the relay writes each fragment, appends it to
    the buffer and then looks for the closing tag in the buffer: when the
    buffer contains the tag after the last fragment of [cs] and after none
    before it, the fragments written are those of [cs] and no other, the
    rest of the stream is not read, and the response is ended next. *)
Theorem relay_halts_at_closing_tag
        (env : Env) (gw : Gateway) (b : Body)
        (before : list string) (k : string) (after : list string)
        (cs : list Chunk.t) (rest : list StreamItem) :
  truthy (prompt b) = true ->
  openRouterKeys env = before ++ k :: after ->
  allFail gw 0 before ->
  passes gw (length before) k ->
  chat_completions_create gw (clientOf k) (chatParams b)
  = Ok (map Yield cs ++ rest) ->
  stopsAt "" cs ->
  run env gw b
  = trace opened ++ failTrace 0 before
    ++ [ModelsList (clientOf k); ChatCreate (clientOf k) (chatParams b)]
    ++ map Write (map contentOf cs) ++ [End_]
  /\ written (run env gw b) = map contentOf cs.
Proof.
  intros Hprompt Hkeys Hf Hp Hcreate Hstop.
  assert (run env gw b
          = trace opened ++ failTrace 0 before
            ++ [ModelsList (clientOf k); ChatCreate (clientOf k) (chatParams b)]
            ++ map Write (map contentOf cs) ++ [End_]) as Hrun.
  { rewrite (run_tryCatch env gw b Hprompt). unfold Eff.tryCatch.
    rewrite generate_eval, Hkeys.
    destruct (getWorkingClient_pass gw before k after opened Hf Hp)
      as [st1 [-> [_ [Htr [Hh Hc]]]]].
    cbn zeta. rewrite Hcreate.
    destruct (relay_stop cs (logged st1 [ChatCreate (clientOf k) (chatParams b)]) rest)
      as [st3 [-> [Ht3 _]]].
    - now apply stopsAt_not_nil.
    - cbn [logged completeResponse]. now rewrite Hc.
    - cbn [snd closed trace]. rewrite Ht3. cbn [logged trace]. rewrite Htr.
      rewrite <- !app_assoc. reflexivity. }
  split; [exact Hrun|].
  rewrite Hrun, !written_app, written_failTrace, written_writes. cbn.
  now rewrite app_nil_r.
Qed.

Lemma relay_halts_at_closing_tag_witness :
  run Demo.env Demo.gateway Demo.firstAsk
  = trace opened ++ failTrace 0 ["sk-or-1"]
    ++ [ModelsList (clientOf "sk-or-2");
        ChatCreate (clientOf "sk-or-2") (chatParams Demo.firstAsk)]
    ++ map Write (map contentOf Demo.fragments) ++ [End_]
  /\ written (run Demo.env Demo.gateway Demo.firstAsk)
     = map contentOf Demo.fragments.
Proof.
  apply (relay_halts_at_closing_tag Demo.env Demo.gateway Demo.firstAsk
           ["sk-or-1"] "sk-or-2" ["sk-or-3"] Demo.fragments Demo.afterwards).
  - reflexivity.
  - reflexivity.
  - intros [|m] k' Hk; [|destruct m; discriminate].
    injection Hk as <-. now exists "401".
  - reflexivity.
  - reflexivity.
  - split; [reflexivity|].
    intros cs1 cs2 E Hne.
    destruct cs1 as [|c1 [|c2 [|c3 cs1]]]; cbn in E.
    + reflexivity.
    + injection E as <- _. reflexivity.
    + injection E as <- <- _. reflexivity.
    + injection E as _ _ _ E. symmetry in E.
      apply app_eq_nil in E as [_ E]. congruence.
Defined.

(** C3. The message list of the completion request is, in this order: the
    system instruction; the previous prompt as a user turn when it is
    present; the current document, inside the sentence that introduces it,
    as an assistant turn when it is present; the new prompt as a user turn.
    With neither optional field there are exactly two messages, with both
    exactly four.  A field is present when the test of the source finds
    it: it holds a string that is not empty. *)
Theorem buildMessages_order (b : Body) (q : string) :
  prompt b = Some q ->
  messages (chatParams b) = buildMessages b
  /\ (truthy (previousPrompt b) = false -> truthy (html b) = false ->
      buildMessages b = [turn system systemInstruction; turn user q])
  /\ (forall p,
        previousPrompt b = Some p -> truthy (Some p) = true ->
        truthy (html b) = false ->
        buildMessages b
        = [turn system systemInstruction; turn user p; turn user q])
  /\ (forall h,
        truthy (previousPrompt b) = false ->
        html b = Some h -> truthy (Some h) = true ->
        buildMessages b
        = [turn system systemInstruction;
           turn assistant ("The current code is: " +:+ h +:+ ".");
           turn user q])
  /\ (forall p h,
        previousPrompt b = Some p -> truthy (Some p) = true ->
        html b = Some h -> truthy (Some h) = true ->
        buildMessages b
        = [turn system systemInstruction;
           turn user p;
           turn assistant ("The current code is: " +:+ h +:+ ".");
           turn user q]).
Proof.
  intros Hq. split; [reflexivity|].
  unfold buildMessages. rewrite Hq. cbn [nullish].
  split; [|split; [|split]].
  - intros -> ->. reflexivity.
  - intros p -> -> ->. reflexivity.
  - intros h -> -> ->. reflexivity.
  - intros p h -> -> -> ->. reflexivity.
Qed.

Lemma buildMessages_order_witness :
  buildMessages Demo.firstAsk
  = [turn system systemInstruction; turn user "a landing page"]
  /\ buildMessages Demo.followUp
     = [turn system systemInstruction;
        turn user "a landing page";
        turn assistant
          ("The current code is: " +:+ "<html><body>hi</body></html>" +:+ ".");
        turn user "make it blue"].
Proof.
  split.
  - exact (proj1 (proj2 (buildMessages_order Demo.firstAsk "a landing page" eq_refl))
             eq_refl eq_refl).
  - exact (proj2 (proj2 (proj2 (proj2
             (buildMessages_order Demo.followUp "make it blue" eq_refl))))
             "a landing page" "<html><body>hi</body></html>"
             eq_refl eq_refl eq_refl eq_refl).
Defined.

(** C6. [getWorkingClient] throws its error, that no key is available,
    exactly when every key of the pool fails its probe, which an empty pool
    does; the error then reaches the caller of the generation request as the
    reply of status 500, after one probe per key of the pool and no other
    attempt: no completion is asked and nothing is written. *)
Theorem no_available_credential (env : Env) (gw : Gateway) (b : Body) :
  truthy (prompt b) = true ->
  (forall keys st,
      fst (getWorkingClient gw keys st)
      = Thrown "No available OpenRouter API key."
      <-> allFail gw 0 keys)
  /\ allFail gw 0 []
  /\ (allFail gw 0 (openRouterKeys env) ->
      run env gw b
      = trace opened ++ failTrace 0 (openRouterKeys env)
        ++ [ConsoleError "No available OpenRouter API key.";
            Send 500 tokenLimitHint]
      /\ probed (run env gw b) = map clientOf (openRouterKeys env)
      /\ created (run env gw b) = []
      /\ written (run env gw b) = []).
Proof.
  intros Hprompt. split; [|split].
  - intros keys st. split.
    + intros Hthrown.
      destruct (allFail_or_passing gw keys 0) as [Hf | Hsome]; [exact Hf|].
      destruct (first_passing gw keys 0 Hsome) as [before [k [after [-> [Hf Hp]]]]].
      cbn [Nat.add] in Hp.
      destruct (getWorkingClient_pass gw before k after st Hf Hp) as [st' [Hr _]].
      rewrite Hr in Hthrown. discriminate.
    + intros Hf. destruct (getWorkingClient_fail gw keys st Hf) as [st' [-> _]].
      reflexivity.
  - apply allFail_nil.
  - intros Hf.
    assert (run env gw b
            = trace opened ++ failTrace 0 (openRouterKeys env)
              ++ [ConsoleError "No available OpenRouter API key.";
                  Send 500 tokenLimitHint]) as Hrun.
    { rewrite (run_tryCatch env gw b Hprompt). unfold Eff.tryCatch.
      rewrite generate_eval.
      destruct (getWorkingClient_fail gw (openRouterKeys env) opened Hf)
        as [st1 [-> [Htr [Hh _]]]].
      destruct (onError_trace "No available OpenRouter API key." st1)
        as [st2 [-> Ht2]].
      cbn [snd]. rewrite Ht2, Hh, Htr. cbn [opened headersSent].
      now rewrite <- app_assoc. }
    split; [exact Hrun|]. rewrite Hrun. clear.
    generalize (openRouterKeys env). intros keys. repeat split.
    + rewrite !probed_app, probed_failTrace. cbn. now rewrite app_nil_r.
    + rewrite !created_app, created_failTrace. reflexivity.
    + rewrite !written_app, written_failTrace. reflexivity.
Qed.

Lemma no_available_credential_witness :
  allFail Demo.deadGateway 0 (openRouterKeys Demo.env)
  /\ fst (getWorkingClient Demo.deadGateway (openRouterKeys Demo.env) fresh)
     = Thrown "No available OpenRouter API key."
  /\ run Demo.env Demo.deadGateway Demo.firstAsk
     = trace opened ++ failTrace 0 (openRouterKeys Demo.env)
       ++ [ConsoleError "No available OpenRouter API key.";
           Send 500 tokenLimitHint].
Proof.
  assert (allFail Demo.deadGateway 0 (openRouterKeys Demo.env)) as Hf
      by (intros m k _; now exists "401").
  destruct (no_available_credential Demo.env Demo.deadGateway Demo.firstAsk eq_refl)
    as [Hiff [_ Hrun]].
  split; [exact Hf|]. split.
  - exact (proj2 (Hiff (openRouterKeys Demo.env) fresh) Hf).
  - exact (proj1 (Hrun Hf)).
Defined.

(** C7 as the specification states it fails: a failure of the stream
    after a first chunk without content.  No text was sent to the caller,
    only the headers that the write of the empty fragment put on the wire;
    the handler sends no failure object and ends the response. *)
Lemma upstream_failure_after_empty_fragment :
  written (run Demo.env Samples.silentStartGateway Demo.firstAsk)
  = [EmptyString]
  /\ sent (run Demo.env Samples.silentStartGateway Demo.firstAsk) = []
  /\ run Demo.env Samples.silentStartGateway Demo.firstAsk
     = trace opened
       ++ [ModelsList (clientOf "sk-or-1");
           ChatCreate (clientOf "sk-or-1") (chatParams Demo.firstAsk);
           Write EmptyString;
           ConsoleError "socket hang up";
           End_].
Proof. repeat split. Qed.

(** C7, amended.  When the [try] block of a generation call throws,
    whatever was thrown: if the handler had written no fragment to the
    response, the caller is sent, under status 500, the failure object with
    the hint about the token limit; if it had written a fragment, be it an
    empty one, nothing is sent and the response is ended.  In both cases
    that is all the handler does after the failure, apart from logging
    it. *)
Theorem upstream_failure_reporting
        (env : Env) (gw : Gateway) (b : Body) (e : string) (st1 : St) :
  truthy (prompt b) = true ->
  generate env gw b opened = (Thrown e, st1) ->
  (written (trace st1) = [] ->
   run env gw b
   = trace st1
     ++ [ConsoleError e;
         Send 500 "You probably reached the MAX_TOKENS limit, context is too long. You can start a new conversation by refreshing the page."])
  /\ (written (trace st1) <> [] ->
      run env gw b = trace st1 ++ [ConsoleError e; End_]).
Proof.
  intros Hprompt Hgen.
  pose proof (generate_thrown_flag env gw b e st1 Hgen) as Hflag.
  rewrite (run_tryCatch env gw b Hprompt). unfold Eff.tryCatch. rewrite Hgen.
  destruct (onError_trace e st1) as [st2 [-> Ht2]]. cbn [snd]. rewrite Ht2.
  unfold flagTracksWrites in Hflag.
  destruct (headersSent st1); split; intros Hw; try reflexivity.
  - apply Hflag in Hw; [contradiction | reflexivity].
  - apply Hflag in Hw. discriminate.
Qed.

Lemma upstream_failure_reporting_witness :
  run Demo.env Demo.refusingGateway Demo.firstAsk
  = trace (snd (generate Demo.env Demo.refusingGateway Demo.firstAsk opened))
    ++ [ConsoleError "context length exceeded";
        Send 500 "You probably reached the MAX_TOKENS limit, context is too long. You can start a new conversation by refreshing the page."]
  /\ written (trace (snd (generate Demo.env Demo.breakingGateway
                                   Demo.firstAsk opened)))
     = ["<!DOCTYPE html>"]
  /\ run Demo.env Demo.breakingGateway Demo.firstAsk
     = trace (snd (generate Demo.env Demo.breakingGateway Demo.firstAsk opened))
       ++ [ConsoleError "socket hang up"; End_].
Proof.
  split; [|split].
  - apply (upstream_failure_reporting Demo.env Demo.refusingGateway Demo.firstAsk
             "context length exceeded" _ eq_refl eq_refl).
    reflexivity.
  - reflexivity.
  - apply (upstream_failure_reporting Demo.env Demo.breakingGateway Demo.firstAsk
             "socket hang up" _ eq_refl eq_refl).
    discriminate.
Defined.

(** C9.  The source at the input on which it departs from the claim: five
    requests from one address, one more than [MAX_REQUESTS_PER_IP].  The
    map [ipAddresses] and the bound are declared, and the handler uses
    neither: after the five requests the map has no entry for the address,
    and each of the five was served its generation. *)
Lemma askAi_counter_never_written :
  length Demo.sameCaller = 5
  /\ Server.MAX_REQUESTS_PER_IP = 4
  /\ Forall (fun r => Server.ip r = "203.0.113.7") Demo.sameCaller
  /\ Server.ipAddresses
       (fst (Server.serve Demo.env Server.boot Demo.sameCaller))
     !! "203.0.113.7" = None
  /\ Forall (fun out => written out = ["..."; "</ht"; "ml>"])
            (snd (Server.serve Demo.env Server.boot Demo.sameCaller)).
Proof.
  split; [reflexivity|]. split; [reflexivity|].
  split; [repeat constructor|]. split; [reflexivity|].
  repeat constructor.
Qed.

(* ================================================================== *)
(** ** Properties of the publish route *)
(* ================================================================== *)

Import Deploy.

(** The paragraph goes right before the first closing body tag. *)
Lemma attribution_injected (h : string) :
  includes h "</body>" = true ->
  exists pre post,
    h = pre +:+ "</body>" +:+ post
    /\ (forall pre' post',
          h = pre' +:+ "</body>" +:+ post' ->
          String.length pre <= String.length pre')
    /\ replaceFirst "</body>" (attribution +:+ "</body>") h
       = pre +:+ attribution +:+ "</body>" +:+ post.
Proof.
  intros Hin.
  destruct (replaceFirst_first "</body>" (attribution +:+ "</body>") h Hin)
    as [pre [post [Hh [Hmin Hr]]]].
  exists pre, post. split; [exact Hh|]. split; [exact Hmin|].
  now rewrite Hr, append_assoc.
Qed.

(** A document without closing body tag is uploaded as it came, also to
    a new site. *)
Lemma create_without_closing_tag (hub : Hub) (req : Req) (h t username : string) :
  html (body req) = Some h -> truthy (Some h) = true ->
  title (body req) = Some t -> truthy (Some t) = true ->
  truthy (path (body req)) = false ->
  includes h "</body>" = false ->
  whoAmI hub (hf_token req) = Ok username ->
  createRepo hub (space (username +:+ "/" +:+ newTitle t)) (hf_token req)
  = Ok tt ->
  snd (run hub req)
  = [CallWhoAmI (hf_token req);
     CallCreateRepo (space (username +:+ "/" +:+ newTitle t)) (hf_token req);
     CallUploadFiles (space (username +:+ "/" +:+ newTitle t))
       [indexFile h; readmeFile (newTitle t)] (hf_token req)].
Proof.
  intros Hh Hht Ht Htt Hp Hin Hw Hc.
  rewrite (run_create hub req h t username Hh Hht Ht Htt Hp Hw Hc).
  cbn [snd]. now rewrite (replaceFirst_absent _ _ h Hin).
Qed.

(** A request with both fields goes on to the platform, and is answered
    200 or 500. *)
Lemma run_valid (hub : Hub) (req : Req) :
  truthy (html (body req)) = true ->
  truthy (title (body req)) = true ->
  exists r,
    fst (run hub req) = Some r
    /\ (status r = 200 \/ status r = 500)
    /\ snd (run hub req) <> [].
Proof.
  intros Hh Ht. unfold run, handler. rewrite Hh, Ht. cbn [negb orb].
  unfold Eff.tryCatch, publish.
  cbv [Eff.bind Eff.ret call Eff.modify Eff.await].
  destruct (negb (truthy (path (body req))) || isEmptyString (path (body req))).
  - destruct (whoAmI hub (hf_token req)) as [username|e].
    + destruct (createRepo hub _ (hf_token req)) as [[]|e].
      * destruct (uploadFiles hub _ _ (hf_token req)) as [[]|e];
          eexists; cbn; repeat split; auto; discriminate.
      * eexists; cbn; repeat split; auto; discriminate.
    + eexists; cbn; repeat split; auto; discriminate.
  - destruct (uploadFiles hub _ _ (hf_token req)) as [[]|e];
      eexists; cbn; repeat split; auto; discriminate.
Qed.




(** C5. On the overwrite branch, the request naming its target: the
    platform is called once, to upload one file, the document exactly as
    it was received; no README is made, nothing is created, the account is
    not looked up; and the path of the reply is the target of the
    request. *)
Theorem deploy_overwrite_branch
        (hub : Hub) (req : Req) (h t p : string) :
  html (body req) = Some h -> truthy (Some h) = true ->
  title (body req) = Some t -> truthy (Some t) = true ->
  path (body req) = Some p -> truthy (Some p) = true ->
  snd (run hub req)
  = [CallUploadFiles (space p) [indexFile h] (hf_token req)]
  /\ text (indexFile h) = h
  /\ fst (run hub req)
     = Some (uploadReply
               (uploadFiles hub (space p) [indexFile h] (hf_token req)) p)
  /\ (uploadFiles hub (space p) [indexFile h] (hf_token req) = Ok tt ->
      fst (run hub req) = Some {| status := 200; payload := Published p |}).
Proof.
  intros Hh Hht Ht Htt Hp Hpt.
  rewrite (run_overwrite hub req h t p Hh Hht Ht Htt Hp Hpt). cbn [fst snd].
  repeat split. intros ->. reflexivity.
Qed.

Lemma deploy_overwrite_branch_witness :
  snd (run Demo.hub Demo.overwriteRequest)
  = [CallUploadFiles (space "alice/my-cool-app") [indexFile Demo.page]
       (hf_token Demo.overwriteRequest)]
  /\ fst (run Demo.hub Demo.overwriteRequest)
     = Some {| status := 200; payload := Published "alice/my-cool-app" |}.
Proof.
  destruct (deploy_overwrite_branch Demo.hub Demo.overwriteRequest Demo.page
              "My Cool App!!" "alice/my-cool-app"
              eq_refl eq_refl eq_refl eq_refl eq_refl eq_refl)
    as [Hcalls [_ [_ Hok]]].
  split; [exact Hcalls | exact (Hok eq_refl)].
Defined.

(** C8 as the specification states it fails: a request that names its
    target and carries a document, and no title, is answered 400 with the
    message of the missing fields, and the platform is not called. *)
Lemma deploy_title_required_on_overwrite :
  path (body Demo.overwriteWithoutTitle) = Some "alice/my-cool-app"
  /\ truthy (html (body Demo.overwriteWithoutTitle)) = true
  /\ title (body Demo.overwriteWithoutTitle) = None
  /\ run Demo.hub Demo.overwriteWithoutTitle
     = (Some {| status := 400; payload := Failure "Missing required fields" |},
        []).
Proof. repeat split. Qed.

(** C8, amended.  The title is required of every publish request: a
    request is answered 400, with the message of the missing fields and
    without any call on the platform, exactly when its document or its
    title is absent or empty, whether or not it names a target. *)
Theorem deploy_invalid_request_iff (hub : Hub) (req : Req) :
  (truthy (html (body req)) = false \/ truthy (title (body req)) = false)
  <-> run hub req
      = (Some {| status := 400; payload := Failure "Missing required fields" |},
         []).
Proof.
  split.
  - intros H. exact (run_invalid hub req H).
  - intros H.
    destruct (truthy (html (body req))) eqn:Hh; [|now left].
    destruct (truthy (title (body req))) eqn:Ht; [|now right].
    destruct (run_valid hub req Hh Ht) as [r [_ [_ Hne]]].
    rewrite H in Hne. now contradiction Hne.
Qed.

(** C10 as the claim states it fails: a request whose target is the
    empty string and whose document closes its body with a blank before
    the bracket.  The create branch is taken, and the document is uploaded
    as it was received: the text uploaded does not contain the attribution
    paragraph. *)
Lemma deploy_empty_path_spaced_tag_unbranded :
  path (body Samples.emptyPathSpacedTag) = Some EmptyString
  /\ html (body Samples.emptyPathSpacedTag) = Some "<body>hi</body >"
  /\ includes "<body>hi</body >" attribution = false
  /\ run Demo.hub Samples.emptyPathSpacedTag
     = (Some {| status := 200; payload := Published "alice/my-cool-app" |},
        [CallWhoAmI (Some "hf_token_of_alice");
         CallCreateRepo {| repoType := "space";
                           repoName := "alice/my-cool-app" |}
                        (Some "hf_token_of_alice");
         CallUploadFiles {| repoType := "space";
                            repoName := "alice/my-cool-app" |}
           [{| text := "<body>hi</body >"; type := "text/html";
               name := "index.html" |};
            {| text := readmeText "my-cool-app"; type := "text/markdown";
               name := "README.md" |}]
           (Some "hf_token_of_alice")]).
Proof. repeat split. Qed.

(** C10, amended.  A request whose target is the empty string is served as
    the request without target: same reply, same calls on the platform.
    The platform answering the lookup and the creation, these calls are the
    lookup of the account, the creation of the account's space named by the
    slug, and the upload of the document and of the README; when the
    document received contains the text of a closing body tag in lower
    case, the document uploaded is the one received with the attribution
    paragraph right before the first such tag. *)
Theorem deploy_empty_path_is_create (hub : Hub) (req : Req) :
  run hub (withPath req (Some EmptyString)) = run hub (withPath req None)
  /\ dq = String "034" EmptyString
  /\ nl = String "010" EmptyString
  /\ attribution
     = "<p style="
       +:+ dq
       +:+ "border-radius: 8px; text-align: center; font-size: "
       +:+ "12px; color: #fff; margin-top: 16px;position: fixed; "
       +:+ "left: 8px; bottom: 8px; z-index: 10; background: "
       +:+ "rgba(0, 0, 0, 0.8); padding: 4px 8px;"
       +:+ dq
       +:+ ">Made with <a href="
       +:+ dq
       +:+ "https://enzostvs-deepsite.hf.space"
       +:+ dq
       +:+ " style="
       +:+ dq
       +:+ "color: #fff;"
       +:+ dq
       +:+ " target="
       +:+ dq
       +:+ "_blank"
       +:+ dq
       +:+ " >DeepSite</a> <img src="
       +:+ dq
       +:+ "https://enzostvs-deepsite.hf.space/logo.svg"
       +:+ dq
       +:+ " alt="
       +:+ dq
       +:+ "DeepSite Logo"
       +:+ dq
       +:+ " style="
       +:+ dq
       +:+ "width: 16px; height: 16px; vertical-align: middle;"
       +:+ dq
       +:+ "></p>"
  /\ (forall slug,
       readmeText slug
       = "---" +:+ nl
         +:+ "title: " +:+ slug +:+ nl
         +:+ "emoji: " +:+ "🐳" +:+ nl
         +:+ "colorFrom: blue" +:+ nl
         +:+ "colorTo: blue" +:+ nl
         +:+ "sdk: static" +:+ nl
         +:+ "pinned: false" +:+ nl
         +:+ "tags:" +:+ nl
         +:+ "  - deepsite" +:+ nl
         +:+ "---" +:+ nl
         +:+ nl
         +:+ "Check out the configuration reference at "
         +:+ "https://huggingface.co/docs/hub/spaces-config-reference")
  /\ (forall h t username,
       html (body req) = Some h -> truthy (Some h) = true ->
       title (body req) = Some t -> truthy (Some t) = true ->
       whoAmI hub (hf_token req) = Ok username ->
       createRepo hub {| repoType := "space";
                         repoName := username +:+ "/" +:+ newTitle t |}
                  (hf_token req)
       = Ok tt ->
       exists doc,
         snd (run hub (withPath req (Some EmptyString)))
         = [CallWhoAmI (hf_token req);
            CallCreateRepo
              {| repoType := "space";
                 repoName := username +:+ "/" +:+ newTitle t |}
              (hf_token req);
            CallUploadFiles
              {| repoType := "space";
                 repoName := username +:+ "/" +:+ newTitle t |}
              [{| text := doc; type := "text/html"; name := "index.html" |};
               {| text := readmeText (newTitle t);
                  type := "text/markdown"; name := "README.md" |}]
              (hf_token req)]
         /\ (includes h "</body>" = true ->
             exists pre post,
               h = pre +:+ "</body>" +:+ post
               /\ (forall pre' post',
                     h = pre' +:+ "</body>" +:+ post' ->
                     String.length pre <= String.length pre')
               /\ doc = pre +:+ attribution +:+ "</body>" +:+ post)).
Proof.
  split.
  { unfold run, handler, publish, withPath. cbn. reflexivity. }
  split; [reflexivity|]. split; [reflexivity|].
  split; [reflexivity|]. split; [reflexivity|].
  intros h t username Hh Hht Ht Htt Hw Hc.
  exists (replaceFirst "</body>" (attribution +:+ "</body>") h). split.
  - rewrite (run_create hub (withPath req (Some "")) h t username
               Hh Hht Ht Htt eq_refl Hw Hc).
    reflexivity.
  - intros Hin.
    destruct (attribution_injected h Hin) as [pre [post [Hdec [Hmin Hr]]]].
    exists pre, post. auto.
Qed.

Lemma deploy_empty_path_is_create_witness :
  run Demo.hub (withPath Demo.createRequest (Some EmptyString))
  = run Demo.hub (withPath Demo.createRequest None)
  /\ exists doc,
       snd (run Demo.hub (withPath Demo.createRequest (Some EmptyString)))
       = [CallWhoAmI (Some "hf_token_of_alice");
          CallCreateRepo
            {| repoType := "space";
               repoName := "alice" +:+ "/" +:+ newTitle "My Cool App!!" |}
            (Some "hf_token_of_alice");
          CallUploadFiles
            {| repoType := "space";
               repoName := "alice" +:+ "/" +:+ newTitle "My Cool App!!" |}
            [{| text := doc; type := "text/html"; name := "index.html" |};
             {| text := readmeText (newTitle "My Cool App!!");
                type := "text/markdown"; name := "README.md" |}]
            (Some "hf_token_of_alice")]
       /\ exists pre post,
            Demo.page = pre +:+ "</body>" +:+ post
            /\ doc = pre +:+ attribution +:+ "</body>" +:+ post.
Proof.
  destruct (deploy_empty_path_is_create Demo.hub Demo.createRequest)
    as [Hsame [_ [_ [_ [_ Hcreate]]]]].
  split; [exact Hsame|].
  destruct (Hcreate Demo.page "My Cool App!!" "alice"
              eq_refl eq_refl eq_refl eq_refl eq_refl eq_refl)
    as [doc [Hcalls Hdoc]].
  exists doc. split; [exact Hcalls|].
  destruct (Hdoc eq_refl) as [pre [post [Hdec [_ Hd]]]].
  exists pre, post. split; [exact Hdec | exact Hd].
Defined.

(* ================================================================== *)
(** ** More on the slug *)
(* ================================================================== *)

Section SlugShapeFacts.

Import SlugSpec Shape.

(** The chain of the source, up to the cut, is the two trims of the
    replaced title. *)
Lemma newTitle_trim (title : string) :
  Deploy.newTitle title
  = slice0 96 (trimLeading (trimTrailing
                              (replace_non_az09 (toLowerCase title)))).
Proof.
  unfold Deploy.newTitle. f_equal. apply split_filter_join_trim.
  apply (replaceRuns_noDoubleSep (toLowerCase title) false).
Qed.

Lemma allChars_replaceRuns (s : string) :
  forall b, allChars slugChar (replaceRuns b s) = true.
Proof.
  induction s as [|c s IH]; intros b; cbn [replaceRuns]; [reflexivity|].
  destruct (inClass_az09 c) eqn:E.
  - cbn [allChars]. unfold slugChar at 1. now rewrite E, IH.
  - destruct b; [apply IH|]. cbn [allChars]. now rewrite IH.
Qed.

Lemma allChars_trimTrailing (p : ascii -> bool) (s : string) :
  allChars p s = true -> allChars p (trimTrailing s) = true.
Proof.
  induction s as [|c s IH]; [reflexivity|]. cbn [allChars trimTrailing].
  intros H. apply andb_true_iff in H as [Hc Hs]. specialize (IH Hs).
  destruct (trimTrailing s) as [|x r].
  - destruct (Ascii.eqb c "-"); [reflexivity|]. cbn. now rewrite Hc.
  - cbn [allChars] in *. now rewrite Hc, IH.
Qed.

Lemma allChars_trimLeading (p : ascii -> bool) (s : string) :
  allChars p s = true -> allChars p (trimLeading s) = true.
Proof.
  induction s as [|c s IH]; [reflexivity|]. cbn [trimLeading].
  intros H. destruct (Ascii.eqb c "-"); [|exact H].
  cbn [allChars] in H. apply andb_true_iff in H as [_ Hs]. now apply IH.
Qed.

Lemma allChars_slice0 (p : ascii -> bool) (n : nat) (s : string) :
  allChars p s = true -> allChars p (slice0 n s) = true.
Proof.
  revert s; induction n as [|n IH]; intros [|c s]; cbn; try reflexivity.
  intros H. apply andb_true_iff in H as [Hc Hs]. now rewrite Hc, IH.
Qed.

Lemma noDoubleSep_trimTrailing (s : string) :
  noDoubleSep s ->
  noDoubleSep (trimTrailing s)
  /\ (startsWithSep (trimTrailing s) = true -> startsWithSep s = true).
Proof.
  induction s as [|c s IH]; [now split|]. intros [Hc Hn].
  destruct (IH Hn) as [IHn IHs]. cbn [trimTrailing].
  destruct (trimTrailing s) as [|x r] eqn:E.
  - destruct (Ascii.eqb c "-") eqn:Ec; [now split|]. split.
    + cbn. split; [|exact I]. congruence.
    + cbn. congruence.
  - split; [|now cbn]. cbn [noDoubleSep]. split; [|exact IHn].
    intros Hsep. specialize (Hc Hsep).
    destruct (startsWithSep (String x r)) eqn:Ex; [|reflexivity].
    rewrite (IHs eq_refl) in Hc. discriminate.
Qed.

Lemma noDoubleSep_trimLeading (s : string) :
  noDoubleSep s -> noDoubleSep (trimLeading s).
Proof.
  induction s as [|c s IH]; [easy|]. intros [Hc Hn]. cbn [trimLeading].
  destruct (Ascii.eqb c "-") eqn:E; [now apply IH|].
  split; [intros H; congruence | exact Hn].
Qed.

Lemma noDoubleSep_slice0 (n : nat) (s : string) :
  noDoubleSep s -> noDoubleSep (slice0 n s).
Proof.
  revert s; induction n as [|n IH]; intros [|c s]; cbn; try easy.
  intros [Hc Hn]. split; [|now apply IH].
  intros Hsep. specialize (Hc Hsep).
  destruct n, s; cbn in *; auto.
Qed.

Lemma startsWithSep_trimLeading (s : string) :
  startsWithSep (trimLeading s) = false.
Proof.
  induction s as [|c s IH]; [reflexivity|]. cbn [trimLeading].
  destruct (Ascii.eqb c "-") eqn:E; [exact IH | exact E].
Qed.

Lemma startsWithSep_slice0 (n : nat) (s : string) :
  startsWithSep s = false -> startsWithSep (slice0 n s) = false.
Proof. destruct n, s; cbn; auto. Qed.

Lemma endsWithSep_cons (c x : ascii) (r : string) :
  endsWithSep (String c (String x r)) = endsWithSep (String x r).
Proof. reflexivity. Qed.

Lemma endsWithSep_trimTrailing (s : string) :
  endsWithSep (trimTrailing s) = false.
Proof.
  induction s as [|c s IH]; [reflexivity|]. cbn [trimTrailing].
  destruct (trimTrailing s) as [|x r].
  - destruct (Ascii.eqb c "-") eqn:E; [reflexivity | exact E].
  - now rewrite endsWithSep_cons.
Qed.

Lemma endsWithSep_trimLeading (s : string) :
  endsWithSep s = false -> endsWithSep (trimLeading s) = false.
Proof.
  induction s as [|c s IH]; [reflexivity|]. cbn [trimLeading].
  intros H. destruct (Ascii.eqb c "-"); [|exact H].
  destruct s as [|x r]; [reflexivity|].
  rewrite endsWithSep_cons in H. now apply IH.
Qed.

Lemma slice0_all (n : nat) (s : string) :
  String.length s <= n -> slice0 n s = s.
Proof.
  revert s; induction n as [|n IH]; intros [|c s]; cbn; try reflexivity.
  - lia.
  - intros H. rewrite IH; [reflexivity | lia].
Qed.

Lemma length_replaceRuns (s : string) :
  forall b, String.length (replaceRuns b s) <= String.length s.
Proof.
  induction s as [|c s IH]; intros b; cbn [replaceRuns String.length]; [lia|].
  destruct (inClass_az09 c).
  - specialize (IH false). cbn [String.length]. lia.
  - destruct b.
    + specialize (IH true). lia.
    + specialize (IH true). cbn [String.length]. lia.
Qed.

Lemma length_trimTrailing (s : string) :
  String.length (trimTrailing s) <= String.length s.
Proof.
  induction s as [|c s IH]; [cbn; lia|]. cbn [trimTrailing String.length].
  destruct (trimTrailing s) as [|x r].
  - destruct (Ascii.eqb c "-"); cbn; lia.
  - cbn [String.length] in *. lia.
Qed.

Lemma length_trimLeading (s : string) :
  String.length (trimLeading s) <= String.length s.
Proof.
  induction s as [|c s IH]; [cbn; lia|]. cbn [trimLeading].
  destruct (Ascii.eqb c "-"); cbn [String.length]; lia.
Qed.

Lemma length_trimmed (title : string) :
  String.length (trimLeading (trimTrailing
                                (replace_non_az09 (toLowerCase title))))
  <= String.length (toLowerCase title).
Proof.
  pose proof (length_trimLeading
                (trimTrailing (replace_non_az09 (toLowerCase title)))).
  pose proof (length_trimTrailing (replace_non_az09 (toLowerCase title))).
  pose proof (length_replaceRuns (toLowerCase title) false).
  unfold replace_non_az09 in *. lia.
Qed.

End SlugShapeFacts.

Section SlugCanonical.

Import SlugSpec Shape.

Lemma lowerUnit_slugChar (c : ascii) : slugChar c = true -> lowerUnit c = c.
Proof.
  destruct c as [[] [] [] [] [] [] [] []];
    first [reflexivity | discriminate].
Qed.

Lemma slugChar_sep_or_class (c : ascii) :
  slugChar c = true -> isSep c = negb (inClass_az09 c).
Proof.
  unfold slugChar, isSep. destruct (inClass_az09 c) eqn:E; cbn.
  - intros _. now apply inClass_not_sep.
  - easy.
Qed.

Lemma toLowerCase_fixed (s : string) :
  allChars slugChar s = true -> toLowerCase s = s.
Proof.
  induction s as [|c s IH]; [reflexivity|]. cbn [allChars toLowerCase].
  intros H. apply andb_true_iff in H as [Hc Hs].
  now rewrite (lowerUnit_slugChar c Hc), IH.
Qed.

Lemma replaceRuns_fixed (s : string) :
  forall b,
    allChars slugChar s = true -> noDoubleSep s ->
    (b = true -> startsWithSep s = false) ->
    replaceRuns b s = s.
Proof.
  induction s as [|c s IH]; intros b Hall Hn Hb; [reflexivity|].
  cbn [allChars] in Hall. apply andb_true_iff in Hall as [Hc Hs].
  destruct Hn as [Hsep Hn]. cbn [replaceRuns].
  pose proof (slugChar_sep_or_class c Hc) as Hcs. unfold isSep in Hcs.
  destruct (inClass_az09 c); cbn in Hcs.
  - rewrite (IH false Hs Hn); [reflexivity | discriminate].
  - destruct b.
    + specialize (Hb eq_refl). cbn in Hb. congruence.
    + apply Ascii.eqb_eq in Hcs as Hc'. subst c.
      rewrite (IH true Hs Hn); [reflexivity|]. intros _. now apply Hsep.
Qed.

Lemma trimTrailing_id (s : string) :
  endsWithSep s = false -> trimTrailing s = s.
Proof.
  induction s as [|c s IH]; [reflexivity|]. cbn [trimTrailing].
  destruct s as [|x r].
  - cbn. unfold isSep. now intros ->.
  - rewrite endsWithSep_cons. intros H. now rewrite (IH H).
Qed.

(** A string in the shape of a slug, and short enough, is its own slug. *)
Lemma newTitle_fixed (s : string) :
  allChars slugChar s = true -> noDoubleSep s ->
  startsWithSep s = false -> endsWithSep s = false ->
  String.length s <= 96 ->
  Deploy.newTitle s = s.
Proof.
  intros Hall Hn Hstart Hend Hlen.
  rewrite newTitle_trim, (toLowerCase_fixed s Hall). unfold replace_non_az09.
  rewrite (replaceRuns_fixed s false Hall Hn) by discriminate.
  rewrite (trimTrailing_id s Hend), (trimLeading_id s Hstart).
  now apply slice0_all.
Qed.

Lemma trimTrailing_empty_iff (s : string) :
  trimTrailing s = "" <-> allChars isSep s = true.
Proof.
  induction s as [|c s IH]; [easy|]. cbn [trimTrailing allChars].
  unfold isSep at 1. destruct (trimTrailing s) as [|x r].
  - destruct (Ascii.eqb c "-"); cbn; [tauto|]. split; discriminate.
  - split; [discriminate|]. intros H. apply andb_true_iff in H as [_ H].
    apply IH in H. discriminate.
Qed.

Lemma trimLeading_empty_iff (s : string) :
  trimLeading s = "" <-> allChars isSep s = true.
Proof.
  induction s as [|c s IH]; [easy|]. cbn [trimLeading allChars].
  unfold isSep at 1. destruct (Ascii.eqb c "-"); cbn; [exact IH|].
  split; discriminate.
Qed.

Lemma allSep_endsWithSep (s : string) :
  allChars isSep s = true -> s <> "" -> endsWithSep s = true.
Proof.
  induction s as [|c s IH]; [congruence|]. cbn [allChars].
  intros H _. apply andb_true_iff in H as [Hc Hs].
  destruct s as [|x r]; [exact Hc|].
  rewrite endsWithSep_cons. apply IH; [exact Hs | discriminate].
Qed.

Lemma trimmed_empty_iff (s : string) :
  trimLeading (trimTrailing s) = "" <-> allChars isSep s = true.
Proof.
  rewrite trimLeading_empty_iff. split.
  - intros H. apply trimTrailing_empty_iff.
    destruct (trimTrailing s) as [|x r] eqn:E; [reflexivity|].
    pose proof (endsWithSep_trimTrailing s) as Hend. rewrite E in Hend.
    rewrite (allSep_endsWithSep _ H) in Hend; discriminate.
  - intros H. apply trimTrailing_empty_iff in H. now rewrite H.
Qed.

Lemma noClass_replaceRuns (s : string) :
  forall b,
    allChars (fun c => negb (inClass_az09 c)) (replaceRuns b s)
    = allChars (fun c => negb (inClass_az09 c)) s.
Proof.
  induction s as [|c s IH]; intros b; [reflexivity|].
  cbn [replaceRuns allChars]. destruct (inClass_az09 c) eqn:E.
  - cbn [allChars]. now rewrite E.
  - destruct b; cbn [allChars negb andb]; apply IH.
Qed.

Lemma allSep_noClass (s : string) :
  allChars slugChar s = true ->
  allChars isSep s = allChars (fun c => negb (inClass_az09 c)) s.
Proof.
  induction s as [|c s IH]; [reflexivity|]. cbn [allChars].
  intros H. apply andb_true_iff in H as [Hc Hs].
  now rewrite (slugChar_sep_or_class c Hc), (IH Hs).
Qed.

End SlugCanonical.

(* ================================================================== *)
(** ** Further properties of the slug *)
(* ================================================================== *)

Lemma newTitle_alphabet (title : string) :
  Shape.allChars Shape.slugChar (Deploy.newTitle title) = true.
Proof.
  rewrite newTitle_trim.
  apply allChars_slice0, allChars_trimLeading, allChars_trimTrailing.
  apply allChars_replaceRuns.
Qed.

Lemma newTitle_no_leading_hyphen (title : string) :
  SlugSpec.startsWithSep (Deploy.newTitle title) = false.
Proof.
  rewrite newTitle_trim.
  apply startsWithSep_slice0, startsWithSep_trimLeading.
Qed.

Lemma newTitle_no_double_hyphen (title : string) :
  SlugSpec.noDoubleSep (Deploy.newTitle title).
Proof.
  rewrite newTitle_trim.
  apply noDoubleSep_slice0, noDoubleSep_trimLeading.
  apply noDoubleSep_trimTrailing.
  apply (replaceRuns_noDoubleSep (toLowerCase title) false).
Qed.

(** X1. The slug of any title is made of lower-case letters, digits and
    hyphens only, does not begin with a hyphen, has no two hyphens side by
    side, and has at most 96 characters. *)
Theorem newTitle_url_safe (title : string) :
  Shape.allChars Shape.slugChar (Deploy.newTitle title) = true
  /\ SlugSpec.startsWithSep (Deploy.newTitle title) = false
  /\ SlugSpec.noDoubleSep (Deploy.newTitle title)
  /\ String.length (Deploy.newTitle title) <= 96.
Proof.
  split; [apply newTitle_alphabet|].
  split; [apply newTitle_no_leading_hyphen|].
  split; [apply newTitle_no_double_hyphen | apply slice0_length].
Qed.

(** X2. For a title whose lower-cased form has at most 96 characters
    nothing is cut: the slug does not end with a hyphen, and the slug of
    the slug is the slug. *)
Theorem newTitle_short_title (title : string) :
  String.length (toLowerCase title) <= 96 ->
  Shape.endsWithSep (Deploy.newTitle title) = false
  /\ Deploy.newTitle (Deploy.newTitle title) = Deploy.newTitle title.
Proof.
  intros Hlen.
  pose proof (newTitle_alphabet title) as Hall.
  pose proof (newTitle_no_leading_hyphen title) as Hstart.
  pose proof (newTitle_no_double_hyphen title) as Hn.
  pose proof (slice0_length 96
                (join "-" (filterNonEmpty
                   (split "-" (replace_non_az09 (toLowerCase title))))))
    as Hl.
  fold (Deploy.newTitle title) in Hl.
  assert (Shape.endsWithSep (Deploy.newTitle title) = false) as Hend.
  { rewrite newTitle_trim, slice0_all.
    - apply endsWithSep_trimLeading, endsWithSep_trimTrailing.
    - pose proof (length_trimmed title). lia. }
  split; [exact Hend|].
  now apply newTitle_fixed.
Qed.

Lemma newTitle_short_title_witness :
  String.length (toLowerCase "My Cool App!!") <= 96
  /\ Shape.endsWithSep (Deploy.newTitle "My Cool App!!") = false
  /\ Deploy.newTitle (Deploy.newTitle "My Cool App!!")
     = Deploy.newTitle "My Cool App!!".
Proof.
  assert (String.length (toLowerCase "My Cool App!!") <= 96) as H
    by (cbn; lia).
  split; [exact H | exact (newTitle_short_title "My Cool App!!" H)].
Defined.

(** X3. The slug is empty exactly when the lower-cased title has no
    character among the lower-case letters a-z and the digits. *)
Theorem newTitle_empty_iff (title : string) :
  Deploy.newTitle title = ""
  <-> Shape.allChars (fun c => negb (inClass_az09 c)) (toLowerCase title)
      = true.
Proof.
  rewrite newTitle_trim.
  rewrite <- (noClass_replaceRuns (toLowerCase title) false).
  rewrite <- allSep_noClass by apply allChars_replaceRuns.
  rewrite <- trimmed_empty_iff. unfold replace_non_az09.
  destruct (SlugSpec.trimLeading _) as [|x r]; cbn; [tauto|].
  split; discriminate.
Qed.

(** The cut can leave a hyphen at the end: 95 letters, a space and a letter
    give 95 letters and a hyphen. *)
Lemma newTitle_cut_may_end_with_hyphen :
  Shape.endsWithSep
    (Deploy.newTitle
       ("aaaaaaaaaaaaaaaaaaaaaaaaaaaaaaaaaaaaaaaaaaaaaaaaaaaaaaaaaaaaaaaaaaaaaaaaaaaaaaaaaaaaaaaaaaaaaaa"
        +:+ " b"))
  = true.
Proof. reflexivity. Qed.

(* ================================================================== *)
(** ** The publish route, case by case *)
(* ================================================================== *)

Section DeployCases.

Variable hub : Hub.

Lemma truthy_is_Some (v : option string) :
  truthy v = true -> exists s, v = Some s /\ truthy (Some s) = true.
Proof. destruct v as [s|]; [now exists s | discriminate]. Qed.

(** The identity lookup throws: nothing is created, nothing uploaded. *)
Lemma run_create_whoAmI_throws (req : Req) (h t e : string) :
  html (body req) = Some h -> truthy (Some h) = true ->
  title (body req) = Some t -> truthy (Some t) = true ->
  truthy (path (body req)) = false ->
  whoAmI hub (hf_token req) = Thrown e ->
  run hub req
  = (Some {| status := 500; payload := Failure e |},
     [CallWhoAmI (hf_token req)]).
Proof.
  intros Hh Hht Ht Htt Hpt Hw. unfold run, handler.
  rewrite Hh, Ht, Hht, Htt, Hpt. cbn [negb orb nullish].
  unfold Eff.tryCatch, publish. rewrite Hpt. cbn [negb orb].
  cbv [Eff.bind Eff.ret call Eff.modify Eff.await].
  now rewrite Hw.
Qed.

(** The creation throws: nothing is uploaded. *)
Lemma run_create_createRepo_throws (req : Req) (h t username e : string) :
  html (body req) = Some h -> truthy (Some h) = true ->
  title (body req) = Some t -> truthy (Some t) = true ->
  truthy (path (body req)) = false ->
  whoAmI hub (hf_token req) = Ok username ->
  createRepo hub (space (username +:+ "/" +:+ newTitle t)) (hf_token req)
  = Thrown e ->
  run hub req
  = (Some {| status := 500; payload := Failure e |},
     [CallWhoAmI (hf_token req);
      CallCreateRepo (space (username +:+ "/" +:+ newTitle t)) (hf_token req)]).
Proof.
  intros Hh Hht Ht Htt Hpt Hw Hc. unfold run, handler.
  rewrite Hh, Ht, Hht, Htt, Hpt. cbn [negb orb nullish].
  unfold Eff.tryCatch, publish. rewrite Hpt, Ht. cbn [negb orb nullish].
  cbv [Eff.bind Eff.ret call Eff.modify Eff.await].
  rewrite Hw. cbn [repoType]. fold (space (username +:+ "/" +:+ newTitle t)).
  now rewrite Hc.
Qed.

Lemma run_outcome (req : Req) : Publish.Outcome hub req (run hub req).
Proof.
  destruct (truthy (html (body req))) eqn:Hh;
    [|rewrite run_invalid by (now left); constructor].
  destruct (truthy (title (body req))) eqn:Ht;
    [|rewrite run_invalid by (now right); constructor].
  apply truthy_is_Some in Hh as [h [Hh Hht]].
  apply truthy_is_Some in Ht as [t [Ht Htt]].
  destruct (truthy (path (body req))) eqn:Hp.
  - apply truthy_is_Some in Hp as [p [Hp Hpt]].
    rewrite (run_overwrite hub req h t p Hh Hht Ht Htt Hp Hpt).
    now constructor.
  - destruct (whoAmI hub (hf_token req)) as [username|e] eqn:Hw.
    + destruct (createRepo hub (space (username +:+ "/" +:+ newTitle t))
                  (hf_token req)) as [[]|e] eqn:Hc.
      * rewrite (run_create hub req h t username Hh Hht Ht Htt Hp Hw Hc).
        now constructor.
      * rewrite (run_create_createRepo_throws req h t username e
                   Hh Hht Ht Htt Hp Hw Hc).
        now constructor.
    + rewrite (run_create_whoAmI_throws req h t e Hh Hht Ht Htt Hp Hw).
      now constructor.
Qed.

End DeployCases.

(* ================================================================== *)
(** ** Further properties of the publish route *)
(* ================================================================== *)

Lemma truthy_repoId (username slug : string) :
  truthy (Some (username +:+ "/" +:+ slug)) = true.
Proof. destruct username; reflexivity. Qed.

(** X4. On the create branch a failure of the platform ends the pipeline
    where it occurs: when the identity lookup throws, the reply is 500 with
    the message thrown and neither creation nor upload is attempted; when
    the creation throws, the reply is 500 with its message and nothing is
    uploaded. *)
Theorem deploy_platform_failure_stops
        (hub : Hub) (req : Req) (h t : string) :
  html (body req) = Some h -> truthy (Some h) = true ->
  title (body req) = Some t -> truthy (Some t) = true ->
  truthy (path (body req)) = false ->
  (forall e,
      whoAmI hub (hf_token req) = Thrown e ->
      run hub req
      = (Some {| status := 500; payload := Failure e |},
         [CallWhoAmI (hf_token req)]))
  /\ (forall username e,
        whoAmI hub (hf_token req) = Ok username ->
        createRepo hub (space (username +:+ "/" +:+ newTitle t)) (hf_token req)
        = Thrown e ->
        run hub req
        = (Some {| status := 500; payload := Failure e |},
           [CallWhoAmI (hf_token req);
            CallCreateRepo (space (username +:+ "/" +:+ newTitle t))
                           (hf_token req)])).
Proof.
  intros Hh Hht Ht Htt Hp. split.
  - intros e Hw.
    exact (run_create_whoAmI_throws hub req h t e Hh Hht Ht Htt Hp Hw).
  - intros username e Hw Hc.
    exact (run_create_createRepo_throws hub req h t username e
             Hh Hht Ht Htt Hp Hw Hc).
Qed.

Lemma deploy_platform_failure_stops_witness :
  run Samples.conflictHub Demo.createRequest
  = (Some {| status := 500; payload := Failure "409 Conflict" |},
     [CallWhoAmI (hf_token Demo.createRequest);
      CallCreateRepo (space ("alice" +:+ "/" +:+ newTitle "My Cool App!!"))
                     (hf_token Demo.createRequest)]).
Proof.
  exact (proj2 (deploy_platform_failure_stops Samples.conflictHub
                  Demo.createRequest Demo.page "My Cool App!!"
                  eq_refl eq_refl eq_refl eq_refl eq_refl)
           "alice" "409 Conflict" eq_refl eq_refl).
Defined.

(** X5. A reply of status 200 with path [p] is given only after the
    upload to the space [p] resolved: that upload is the last call made on
    the platform, it is the only upload, and its first file is the entry
    document. *)
Theorem deploy_ok_means_uploaded (hub : Hub) (req : Req) (p : string) :
  fst (run hub req) = Some {| status := 200; payload := Published p |} ->
  exists before doc others,
    snd (run hub req)
    = before ++ [CallUploadFiles (space p) (indexFile doc :: others)
                                 (hf_token req)]
    /\ uploadFiles hub (space p) (indexFile doc :: others) (hf_token req)
       = Ok tt
    /\ existsb Shape.isUpload before = false.
Proof.
  pose proof (run_outcome hub req) as Hout.
  remember (run hub req) as out eqn:E. clear E.
  destruct Hout as [ | h p' Hp Hpt | e Hp | username t e Hp | username t doc Hp];
    cbn [fst snd]; intros H; try discriminate.
  - destruct (uploadFiles hub (space p') [indexFile h] (hf_token req))
      as [[]|e] eqn:Hu; cbn in H; [|discriminate].
    injection H as ->. now exists [], h, [].
  - destruct (uploadFiles hub _ _ (hf_token req)) as [[]|e] eqn:Hu;
      cbn in H; [|discriminate].
    injection H as <-.
    now exists [CallWhoAmI (hf_token req);
                CallCreateRepo (space (username +:+ "/" +:+ newTitle t))
                               (hf_token req)],
               doc, [readmeFile (newTitle t)].
Qed.

Lemma deploy_ok_means_uploaded_witness :
  fst (run Demo.hub Demo.createRequest)
  = Some {| status := 200; payload := Published "alice/my-cool-app" |}
  /\ exists before doc others,
       snd (run Demo.hub Demo.createRequest)
       = before ++ [CallUploadFiles (space "alice/my-cool-app")
                      (indexFile doc :: others) (hf_token Demo.createRequest)]
       /\ uploadFiles Demo.hub (space "alice/my-cool-app")
            (indexFile doc :: others) (hf_token Demo.createRequest)
          = Ok tt
       /\ existsb Shape.isUpload before = false.
Proof.
  split; [reflexivity|].
  exact (deploy_ok_means_uploaded Demo.hub Demo.createRequest
           "alice/my-cool-app" eq_refl).
Defined.

(** X6. Whatever the request and the platform, the route makes at most
    three calls on the platform, at most one of them an upload, which is
    then the last call, and every call carries the token of the cookie of
    the request. *)
Theorem deploy_calls_shape (hub : Hub) (req : Req) :
  length (snd (run hub req)) <= 3
  /\ length (List.filter Shape.isUpload (snd (run hub req))) <= 1
  /\ existsb Shape.isUpload (removelast (snd (run hub req))) = false
  /\ Forall (fun c => Shape.tokenOf c = hf_token req) (snd (run hub req)).
Proof.
  destruct (run_outcome hub req); cbn; repeat split; try lia;
    repeat constructor.
Qed.

(** X8. The path that a creation returns is never empty, so that a later
    request that carries it as its target is an overwrite: whatever the
    platform then answers, that request makes one call, the upload of its
    document as received to the space of that path. *)
Theorem deploy_created_path_overwrites
        (hub : Hub) (req : Req) (p : string)
        (hub' : Hub) (req' : Req) (h' t' : string) :
  truthy (path (body req)) = false ->
  fst (run hub req) = Some {| status := 200; payload := Published p |} ->
  html (body req') = Some h' -> truthy (Some h') = true ->
  title (body req') = Some t' -> truthy (Some t') = true ->
  path (body req') = Some p ->
  truthy (Some p) = true
  /\ run hub' req'
     = (Some (uploadReply
                (uploadFiles hub' (space p) [indexFile h'] (hf_token req')) p),
        [CallUploadFiles (space p) [indexFile h'] (hf_token req')]).
Proof.
  intros Hcreate Hok Hh Hht Ht Htt Hp.
  assert (truthy (Some p) = true) as Hpt.
  { pose proof (run_outcome hub req) as Hout.
    remember (run hub req) as out eqn:E. clear E.
    destruct Hout as [ | h p0 Hp0 Hpt0 | e _ | username t e _ | username t doc _];
      cbn [fst] in Hok; try discriminate.
    - rewrite Hp0 in Hcreate. congruence.
    - destruct (uploadFiles hub _ _ (hf_token req)) as [[]|e];
        cbn in Hok; [|discriminate].
      injection Hok as <-. apply truthy_repoId. }
  split; [exact Hpt|].
  exact (run_overwrite hub' req' h' t' p Hh Hht Ht Htt Hp Hpt).
Qed.

Lemma deploy_created_path_overwrites_witness :
  truthy (Some "alice/my-cool-app") = true
  /\ run Demo.hub Samples.secondVersion
     = (Some (uploadReply
                (uploadFiles Demo.hub (space "alice/my-cool-app")
                   [indexFile "<html><body>v2</body></html>"]
                   (hf_token Samples.secondVersion))
                "alice/my-cool-app"),
        [CallUploadFiles (space "alice/my-cool-app")
           [indexFile "<html><body>v2</body></html>"]
           (hf_token Samples.secondVersion)]).
Proof.
  exact (deploy_created_path_overwrites
           Demo.hub Demo.createRequest "alice/my-cool-app"
           Demo.hub Samples.secondVersion
           "<html><body>v2</body></html>" "My Cool App!!"
           eq_refl eq_refl eq_refl eq_refl eq_refl eq_refl eq_refl).
Defined.

(* ================================================================== *)
(** ** The generate route, for every gateway *)
(* ================================================================== *)

Section GenerateCases.

Import AskAi.

Variable gw : AskAi.Gateway.

Lemma finishes_failTrace (i : nat) (keys : list string) :
  existsb Shape.finishes (failTrace i keys) = false.
Proof.
  revert i; induction keys as [|k keys IH]; intros i; [reflexivity|].
  cbn. apply IH.
Qed.

Lemma finishes_writes (ws : list string) :
  existsb Shape.finishes (map Write ws) = false.
Proof. induction ws as [|w ws IH]; [reflexivity | exact IH]. Qed.

Lemma in_filterBoolean (xs : list (option string)) (k : string) :
  In k (filterBoolean xs) <-> k <> "" /\ In (Some k) xs.
Proof.
  induction xs as [|[s|] xs IH]; cbn [filterBoolean In].
  - tauto.
  - cbn [truthy]. destruct (String.eqb_spec s ""); cbn [negb In];
      rewrite IH; split.
    + intros [Hk Hin]. auto.
    + intros [Hk [E|Hin]]; [|auto]. injection E as ->. congruence.
    + intros [<- | [Hk Hin]]; auto.
    + intros [Hk [E|Hin]]; [injection E as ->; now left | right; auto].
  - rewrite IH. split.
    + intros [Hk Hin]. auto.
    + intros [Hk [E|Hin]]; [discriminate | auto].
Qed.

Lemma filterBoolean_sublist (xs : list (option string)) :
  sublist (map Some (filterBoolean xs)) xs.
Proof.
  induction xs as [|[s|] xs IH]; cbn [filterBoolean].
  - constructor.
  - destruct (truthy (Some s)); cbn [map]; now constructor.
  - now constructor.
Qed.

Lemma filterBoolean_length (xs : list (option string)) :
  length (filterBoolean xs) <= length xs.
Proof.
  induction xs as [|[s|] xs IH]; cbn [filterBoolean length]; [lia| |lia].
  destruct (truthy (Some s)); cbn [length]; lia.
Qed.

(** What the prober adds to the trace: the probes of a first part of the
    pool, warnings, and nothing that belongs to the response. *)
Lemma getWorkingClient_trace (keys : list string) (st : St) :
  exists n evs,
    n <= length keys
    /\ trace (snd (getWorkingClient gw keys st)) = trace st ++ evs
    /\ headersSent (snd (getWorkingClient gw keys st)) = headersSent st
    /\ completeResponse (snd (getWorkingClient gw keys st))
       = completeResponse st
    /\ probed evs = map clientOf (take n keys)
    /\ written evs = []
    /\ existsb Shape.finishes evs = false.
Proof.
  destruct (allFail_or_passing gw keys 0) as [Hf | Hsome].
  - destruct (getWorkingClient_fail gw keys st Hf) as [st' [-> [Htr [Hh Hc]]]].
    exists (length keys), (failTrace 0 keys). cbn [snd].
    rewrite firstn_all, probed_failTrace, written_failTrace,
      finishes_failTrace.
    repeat split; auto.
  - destruct (first_passing gw keys 0 Hsome) as [before [k [after [-> [Hf Hp]]]]].
    cbn [Nat.add] in Hp.
    destruct (getWorkingClient_pass gw before k after st Hf Hp)
      as [st' [-> [_ [Htr [Hh Hc]]]]].
    exists (length (before ++ [k])),
           (failTrace 0 before ++ [ModelsList (clientOf k)]).
    cbn [snd]. repeat split; auto.
    + rewrite !length_app. cbn. lia.
    + rewrite probed_app, probed_failTrace.
      change (before ++ k :: after) with (before ++ [k] ++ after).
      rewrite app_assoc, take_app_length, map_app. reflexivity.
    + rewrite written_app, written_failTrace. reflexivity.
    + rewrite existsb_app, finishes_failTrace. reflexivity.
Qed.

(** What the relay adds to the trace: writes. *)
Lemma relay_writes (items : list StreamItem) :
  forall st,
    exists ws,
      trace (snd (relay items st)) = trace st ++ map Write ws.
Proof.
  induction items as [|[chunk|message] items IH]; intros st.
  - exists []. cbn. now rewrite app_nil_r.
  - rewrite relay_step. cbn zeta.
    destruct (includes _ closingTag).
    + exists [contentOf chunk]. reflexivity.
    + destruct (IH (wrote st (contentOf chunk))) as [ws Hws].
      exists (contentOf chunk :: ws). rewrite Hws. cbn [wrote trace map].
      now rewrite <- app_assoc.
  - exists []. cbn. now rewrite app_nil_r.
Qed.

End GenerateCases.

(* ================================================================== *)
(** ** Further properties of the generate route *)
(* ================================================================== *)

(** X9. The pool of a request is made of the configured keys that are not
    empty, in the order of the four variables: a key is in the pool exactly
    when it is not the empty string and one of the variables holds it; the
    pool is a subsequence of the four variables, and so has at most four
    keys. *)
Theorem openRouterKeys_pool (env : AskAi.Env) :
  (forall k,
      In k (AskAi.openRouterKeys env)
      <-> k <> ""
          /\ (AskAi.OPENROUTER_API_KEY_1 env = Some k
              \/ AskAi.OPENROUTER_API_KEY_2 env = Some k
              \/ AskAi.OPENROUTER_API_KEY_3 env = Some k
              \/ AskAi.OPENROUTER_API_KEY_4 env = Some k))
  /\ sublist (map Some (AskAi.openRouterKeys env))
             [AskAi.OPENROUTER_API_KEY_1 env; AskAi.OPENROUTER_API_KEY_2 env;
              AskAi.OPENROUTER_API_KEY_3 env; AskAi.OPENROUTER_API_KEY_4 env]
  /\ length (AskAi.openRouterKeys env) <= 4.
Proof.
  unfold AskAi.openRouterKeys. split; [|split].
  - intros k. rewrite in_filterBoolean. cbn [In]. intuition congruence.
  - apply filterBoolean_sublist.
  - apply (filterBoolean_length [_; _; _; _]).
Qed.

(** X10. Whatever the gateway answers, the prober leaves the response and
    the buffer as they are, writes and sends nothing, and probes a first
    part of the pool, key by key in pool order: no key is skipped, none is
    probed twice. *)
Theorem prober_probes_a_prefix
        (gw : AskAi.Gateway) (keys : list string) (st : AskAi.St) :
  AskAi.headersSent (snd (AskAi.getWorkingClient gw keys st))
  = AskAi.headersSent st
  /\ AskAi.completeResponse (snd (AskAi.getWorkingClient gw keys st))
     = AskAi.completeResponse st
  /\ AskAi.written (AskAi.trace (snd (AskAi.getWorkingClient gw keys st)))
     = AskAi.written (AskAi.trace st)
  /\ existsb Shape.finishes
       (AskAi.trace (snd (AskAi.getWorkingClient gw keys st)))
     = existsb Shape.finishes (AskAi.trace st)
  /\ exists n,
       n <= length keys
       /\ AskAi.probed (AskAi.trace (snd (AskAi.getWorkingClient gw keys st)))
          = AskAi.probed (AskAi.trace st)
            ++ map AskAi.clientOf (take n keys).
Proof.
  destruct (getWorkingClient_trace gw keys st)
    as [n [evs [Hn [Htr [Hh [Hc [Hp [Hw Hf]]]]]]]].
  split; [exact Hh|]. split; [exact Hc|]. rewrite Htr.
  split; [|split].
  - rewrite written_app, Hw. apply app_nil_r.
  - rewrite existsb_app, Hf. apply orb_false_r.
  - exists n. split; [exact Hn|]. now rewrite probed_app, Hp.
Qed.

(** X11. Whatever the stream does, the relay writes the fragments of a
    first part of it, each one while the buffer before it was without the
    closing tag, and keeps in the buffer exactly what it wrote.  It
    returns when the stream is over or the buffer has the tag, and throws
    what the stream throws, the tag not yet seen. *)
Theorem relay_never_writes_past_tag
        (items : list AskAi.StreamItem) (st : AskAi.St) :
  includes (AskAi.completeResponse st) AskAi.closingTag = false ->
  exists cs rest,
    items = map AskAi.Yield cs ++ rest
    /\ AskAi.trace (snd (AskAi.relay items st))
       = AskAi.trace st ++ map AskAi.Write (map AskAi.contentOf cs)
    /\ AskAi.completeResponse (snd (AskAi.relay items st))
       = AskAi.completeResponse st +:+ AskAi.buffer cs
    /\ (forall cs1 cs2,
          cs = cs1 ++ cs2 -> cs2 <> [] ->
          includes (AskAi.completeResponse st +:+ AskAi.buffer cs1)
                   AskAi.closingTag = false)
    /\ match fst (AskAi.relay items st) with
       | Ok _ =>
           rest = []
           \/ includes (AskAi.completeResponse st +:+ AskAi.buffer cs)
                       AskAi.closingTag = true
       | Thrown e =>
           (exists rest', rest = AskAi.Raise e :: rest')
           /\ includes (AskAi.completeResponse st +:+ AskAi.buffer cs)
                       AskAi.closingTag = false
       end.
Proof.
  revert st. induction items as [|[chunk|message] items IH]; intros st Hbuf.
  - exists [], []. cbn. rewrite app_nil_r, append_empty_r.
    repeat split; auto.
    intros cs1 cs2 E Hne. symmetry in E.
    apply app_eq_nil in E as [_ E]. congruence.
  - rewrite relay_step. cbn zeta.
    destruct (includes (AskAi.completeResponse
                          (AskAi.wrote st (AskAi.contentOf chunk)))
                       AskAi.closingTag) eqn:E.
    + exists [chunk], items. cbn [fst snd map app AskAi.wrote AskAi.trace
                                    AskAi.completeResponse AskAi.buffer fold_right] in *.
      rewrite append_empty_r. repeat split; auto.
      intros cs1 cs2 Ecs Hne. destruct cs1 as [|c1 cs1].
      * cbn. now rewrite append_empty_r.
      * injection Ecs as _ Ecs. symmetry in Ecs.
        apply app_eq_nil in Ecs as [_ Ecs]. congruence.
    + destruct (IH (AskAi.wrote st (AskAi.contentOf chunk)) E)
        as [cs [rest [-> [Htr [Hc [Hpre Hout]]]]]].
      exists (chunk :: cs), rest.
      cbn [AskAi.wrote AskAi.trace AskAi.completeResponse] in *.
      rewrite buffer_cons, <- append_assoc.
      split; [reflexivity|]. split; [|split; [exact Hc|split]].
      * rewrite Htr. cbn [map]. now rewrite <- app_assoc.
      * intros cs1 cs2 Ecs Hne. destruct cs1 as [|c1 cs1].
        -- cbn. now rewrite append_empty_r.
        -- injection Ecs as <- Ecs. rewrite buffer_cons, <- append_assoc.
           now apply (Hpre cs1 cs2).
      * exact Hout.
  - exists [], (AskAi.Raise message :: items). cbn.
    rewrite app_nil_r, append_empty_r. repeat split; auto.
    + intros cs1 cs2 E Hne. symmetry in E.
      apply app_eq_nil in E as [_ E]. congruence.
    + now exists items.
Qed.

Lemma relay_never_writes_past_tag_witness :
  exists cs rest,
    map AskAi.Yield Demo.fragments ++ Demo.afterwards
    = map AskAi.Yield cs ++ rest
    /\ AskAi.trace
         (snd (AskAi.relay (map AskAi.Yield Demo.fragments ++ Demo.afterwards)
                           AskAi.opened))
       = AskAi.trace AskAi.opened ++ map AskAi.Write (map AskAi.contentOf cs)
    /\ AskAi.completeResponse
         (snd (AskAi.relay (map AskAi.Yield Demo.fragments ++ Demo.afterwards)
                           AskAi.opened))
       = AskAi.completeResponse AskAi.opened +:+ AskAi.buffer cs
    /\ (forall cs1 cs2,
          cs = cs1 ++ cs2 -> cs2 <> [] ->
          includes (AskAi.completeResponse AskAi.opened +:+ AskAi.buffer cs1)
                   AskAi.closingTag = false)
    /\ match fst (AskAi.relay
                    (map AskAi.Yield Demo.fragments ++ Demo.afterwards)
                    AskAi.opened) with
       | Ok _ =>
           rest = []
           \/ includes (AskAi.completeResponse AskAi.opened +:+ AskAi.buffer cs)
                       AskAi.closingTag = true
       | Thrown e =>
           (exists rest', rest = AskAi.Raise e :: rest')
           /\ includes (AskAi.completeResponse AskAi.opened +:+ AskAi.buffer cs)
                       AskAi.closingTag = false
       end.
Proof.
  exact (relay_never_writes_past_tag
           (map AskAi.Yield Demo.fragments ++ Demo.afterwards)
           AskAi.opened eq_refl).
Defined.

(** X12. A stream that ends without the closing tag ever being in the
    buffer is relayed whole: every fragment is written, in order, and the
    response is then ended as for a finished document. *)
Theorem unfinished_stream_relayed_whole
        (env : AskAi.Env) (gw : AskAi.Gateway) (b : AskAi.Body)
        (before : list string) (k : string) (after : list string)
        (cs : list AskAi.Chunk.t) :
  truthy (AskAi.prompt b) = true ->
  AskAi.openRouterKeys env = before ++ k :: after ->
  AskAi.allFail gw 0 before ->
  AskAi.passes gw (length before) k ->
  AskAi.chat_completions_create gw (AskAi.clientOf k) (AskAi.chatParams b)
  = Ok (map AskAi.Yield cs) ->
  (forall cs1 cs2, cs = cs1 ++ cs2 -> cs1 <> [] ->
                   includes (AskAi.buffer cs1) AskAi.closingTag = false) ->
  AskAi.run env gw b
  = AskAi.trace AskAi.opened ++ AskAi.failTrace 0 before
    ++ [AskAi.ModelsList (AskAi.clientOf k);
        AskAi.ChatCreate (AskAi.clientOf k) (AskAi.chatParams b)]
    ++ map AskAi.Write (map AskAi.contentOf cs) ++ [AskAi.End_].
Proof.
  intros Hprompt Hkeys Hf Hp Hcreate Hno.
  rewrite (run_tryCatch env gw b Hprompt). unfold Eff.tryCatch.
  rewrite generate_eval, Hkeys.
  destruct (getWorkingClient_pass gw before k after AskAi.opened Hf Hp)
    as [st1 [-> [_ [Htr [Hh Hc]]]]].
  cbn zeta. rewrite Hcreate.
  destruct (relay_exhausted cs
              (AskAi.logged st1
                 [AskAi.ChatCreate (AskAi.clientOf k) (AskAi.chatParams b)]))
    as [st3 [-> [Ht3 _]]].
  - intros cs1 cs2 E Hne. cbn [AskAi.logged AskAi.completeResponse].
    rewrite Hc. exact (Hno cs1 cs2 E Hne).
  - cbn [snd AskAi.closed AskAi.trace]. rewrite Ht3.
    cbn [AskAi.logged AskAi.trace]. rewrite Htr.
    rewrite <- !app_assoc. reflexivity.
Qed.

Lemma unfinished_stream_relayed_whole_witness :
  AskAi.run Demo.env Samples.unfinishedGateway Demo.firstAsk
  = AskAi.trace AskAi.opened ++ AskAi.failTrace 0 []
    ++ [AskAi.ModelsList (AskAi.clientOf "sk-or-1");
        AskAi.ChatCreate (AskAi.clientOf "sk-or-1")
                         (AskAi.chatParams Demo.firstAsk)]
    ++ map AskAi.Write (map AskAi.contentOf Samples.unfinished)
    ++ [AskAi.End_].
Proof.
  apply (unfinished_stream_relayed_whole Demo.env Samples.unfinishedGateway
           Demo.firstAsk [] "sk-or-1" ["sk-or-2"; "sk-or-3"]
           Samples.unfinished).
  - reflexivity.
  - reflexivity.
  - apply allFail_nil.
  - reflexivity.
  - reflexivity.
  - intros cs1 cs2 E _.
    destruct cs1 as [|c1 [|c2 [|c3 cs1]]]; cbn in E.
    + reflexivity.
    + injection E as <- _. reflexivity.
    + injection E as <- <- _. reflexivity.
    + discriminate.
Defined.

(** The run of a request with a prompt: the three headers, then events
    that do not finish the response, then the one that does; a reply sent
    at the end is the 500 of the [catch] block and comes after no write. *)
Lemma run_with_prompt_shape
      (env : AskAi.Env) (gw : AskAi.Gateway) (b : AskAi.Body) :
  truthy (AskAi.prompt b) = true ->
  exists mid final,
    AskAi.run env gw b = AskAi.trace AskAi.opened ++ mid ++ [final]
    /\ existsb Shape.finishes mid = false
    /\ (final = AskAi.End_
        \/ final = AskAi.Send 500 AskAi.tokenLimitHint
           /\ AskAi.written mid = []).
Proof.
  intros Hprompt.
  rewrite (run_tryCatch env gw b Hprompt). unfold Eff.tryCatch.
  destruct (AskAi.generate env gw b AskAi.opened) as [[[]|e] stg] eqn:Hgen.
  - (* the try block returned: its last act was to end the response *)
    rewrite generate_eval in Hgen.
    destruct (getWorkingClient_trace gw (AskAi.openRouterKeys env) AskAi.opened)
      as [n [evs [_ [Htr [_ [_ [_ [_ Hf]]]]]]]].
    destruct (AskAi.getWorkingClient gw (AskAi.openRouterKeys env) AskAi.opened)
      as [[openai|e0] st1]; [|discriminate]. cbn [snd] in Htr. cbn zeta in Hgen.
    destruct (AskAi.chat_completions_create gw openai (AskAi.chatParams b))
      as [items|e1]; [|discriminate].
    destruct (relay_writes items
                (AskAi.logged st1 [AskAi.ChatCreate openai (AskAi.chatParams b)]))
      as [ws Hws].
    destruct (AskAi.relay items _) as [[[]|e2] st3]; [|discriminate].
    injection Hgen as <-. cbn [snd] in Hws |- *.
    exists (evs ++ [AskAi.ChatCreate openai (AskAi.chatParams b)]
                ++ map AskAi.Write ws), AskAi.End_.
    cbn [AskAi.closed AskAi.trace]. rewrite Hws.
    cbn [AskAi.logged AskAi.trace]. rewrite Htr. split; [|split].
    + rewrite <- !app_assoc. reflexivity.
    + rewrite !existsb_app, Hf, finishes_writes. reflexivity.
    + now left.
  - (* the try block threw *)
    pose proof (generate_thrown_flag env gw b e stg Hgen) as Hflag.
    destruct (onError_trace e stg) as [st2 [-> Ht2]]. cbn [snd].
    rewrite generate_eval in Hgen.
    destruct (getWorkingClient_trace gw (AskAi.openRouterKeys env) AskAi.opened)
      as [n [evs [_ [Htr [_ [_ [_ [Hw Hf]]]]]]]].
    destruct (AskAi.getWorkingClient gw (AskAi.openRouterKeys env) AskAi.opened)
      as [[openai|e0] st1]; cbn [snd] in Htr; cbn zeta in Hgen.
    + destruct (AskAi.chat_completions_create gw openai (AskAi.chatParams b))
        as [items|e1].
      * destruct (relay_writes items
                    (AskAi.logged st1
                       [AskAi.ChatCreate openai (AskAi.chatParams b)]))
          as [ws Hws].
        destruct (AskAi.relay items _) as [[[]|e2] st3]; [discriminate|].
        injection Hgen as -> ->. cbn [snd] in Hws.
        exists (evs ++ [AskAi.ChatCreate openai (AskAi.chatParams b)]
                    ++ map AskAi.Write ws ++ [AskAi.ConsoleError e]),
               (if AskAi.headersSent stg then AskAi.End_
                else AskAi.Send 500 AskAi.tokenLimitHint).
        rewrite Ht2, Hws. cbn [AskAi.logged AskAi.trace]. rewrite Htr.
        split; [|split].
        -- rewrite <- !app_assoc. reflexivity.
        -- rewrite !existsb_app, Hf, finishes_writes. reflexivity.
        -- destruct (AskAi.headersSent stg) eqn:Hh; [now left|]. right.
           split; [reflexivity|].
           rewrite !written_app, Hw, written_writes. cbn.
           rewrite app_nil_r.
           destruct ws as [|w ws]; [reflexivity|]. exfalso.
           unfold AskAi.flagTracksWrites in Hflag.
           assert (AskAi.written (AskAi.trace stg) <> []) as Hne.
           { rewrite Hws. cbn [AskAi.logged AskAi.trace].
             rewrite !written_app. cbn.
             intros H. apply app_eq_nil in H as [_ H]. discriminate. }
           apply Hflag in Hne. congruence.
      * injection Hgen as -> <-.
        exists (evs ++ [AskAi.ChatCreate openai (AskAi.chatParams b);
                        AskAi.ConsoleError e]),
               (if AskAi.headersSent
                     (AskAi.logged st1
                        [AskAi.ChatCreate openai (AskAi.chatParams b)])
                then AskAi.End_ else AskAi.Send 500 AskAi.tokenLimitHint).
        rewrite Ht2. cbn [AskAi.logged AskAi.trace AskAi.headersSent].
        rewrite Htr. split; [|split].
        -- rewrite <- !app_assoc. reflexivity.
        -- rewrite existsb_app, Hf. reflexivity.
        -- destruct (AskAi.headersSent st1); [now left|]. right.
           split; [reflexivity|]. rewrite written_app, Hw. reflexivity.
    + injection Hgen as -> <-.
      exists (evs ++ [AskAi.ConsoleError e]),
             (if AskAi.headersSent st1 then AskAi.End_
              else AskAi.Send 500 AskAi.tokenLimitHint).
      rewrite Ht2, Htr. split; [|split].
      * rewrite <- !app_assoc. reflexivity.
      * rewrite existsb_app, Hf. reflexivity.
      * destruct (AskAi.headersSent st1); [now left|]. right.
        split; [reflexivity|]. rewrite written_app, Hw. reflexivity.
Qed.

(** X13. Every request to the generate route is answered once: the last
    thing the handler does to the response is to end it or to send a
    failure object, and it does neither before.  A failure object, of
    status 400 or 500, is sent only when nothing was written. *)
Theorem response_finished_once
        (env : AskAi.Env) (gw : AskAi.Gateway) (b : AskAi.Body) :
  exists pre final,
    AskAi.run env gw b = pre ++ [final]
    /\ existsb Shape.finishes pre = false
    /\ (final = AskAi.End_
        \/ exists status message,
             final = AskAi.Send status message
             /\ (status = 400 \/ status = 500)
             /\ AskAi.written pre = []).
Proof.
  destruct (truthy (AskAi.prompt b)) eqn:Hprompt.
  - destruct (run_with_prompt_shape env gw b Hprompt)
      as [mid [final [Hrun [Hmid Hfinal]]]].
    exists (AskAi.trace AskAi.opened ++ mid), final. split; [|split].
    + rewrite Hrun. now rewrite app_assoc.
    + rewrite existsb_app, Hmid. reflexivity.
    + destruct Hfinal as [-> | [-> Hw]]; [now left|]. right.
      exists 500, AskAi.tokenLimitHint. split; [reflexivity|].
      split; [now right|]. rewrite written_app, Hw. reflexivity.
  - rewrite (run_missing_prompt env gw b Hprompt).
    exists [], (AskAi.Send 400 "Missing required fields").
    split; [reflexivity|]. split; [reflexivity|]. right.
    exists 400, "Missing required fields". auto.
Qed.

(** X14. A request without prompt is answered 400 and reaches neither
    the gateway nor the headers of a stream; and only such a request is
    answered so. *)
Theorem missing_prompt_iff
        (env : AskAi.Env) (gw : AskAi.Gateway) (b : AskAi.Body) :
  AskAi.run env gw b = [AskAi.Send 400 "Missing required fields"]
  <-> truthy (AskAi.prompt b) = false.
Proof.
  split.
  - intros H. destruct (truthy (AskAi.prompt b)) eqn:Hprompt; [|reflexivity].
    destruct (run_with_prompt_shape env gw b Hprompt) as [mid [final [Hrun _]]].
    rewrite Hrun in H. discriminate.
  - apply run_missing_prompt.
Qed.

(* ================================================================== *)
(** ** Properties of the login callback and of the identity lookup *)
(* ================================================================== *)

Section AuthFacts.

Variable env : Auth.ProcessEnv.
Variable idp : Auth.Provider.

(** The callback without code. *)
Lemma callback_without_code (code : option string) :
  truthy code = false ->
  Auth.run (Auth.callback env idp code) = (Ok tt, [Auth.Redirect 302 "/"]).
Proof. intros H. unfold Auth.run, Auth.callback. now rewrite H. Qed.

(** The callback with a code, by the answer of the token endpoint. *)
Lemma callback_with_code (c : string) :
  truthy (Some c) = true ->
  Auth.run (Auth.callback env idp (Some c))
  = match Auth.oauth_token idp (Auth.tokenRequest env idp c) with
    | Thrown e =>
        (Thrown e,
         [Auth.Fetch "https://huggingface.co/oauth/token"
                     (Auth.tokenRequest env idp c)])
    | Ok response =>
        if truthy (Auth.access_token response) then
          (Ok tt,
           [Auth.Fetch "https://huggingface.co/oauth/token"
                       (Auth.tokenRequest env idp c);
            Auth.Cookie "hf_token" (nullish (Auth.access_token response) "")
                        Auth.sessionCookie;
            Auth.Redirect 302 "/"])
        else
          (Ok tt,
           [Auth.Fetch "https://huggingface.co/oauth/token"
                       (Auth.tokenRequest env idp c);
            Auth.Redirect 302 "/"])
    end.
Proof.
  intros H. unfold Auth.run, Auth.callback. rewrite H. cbn [negb nullish].
  cbv [Eff.bind Auth.emit Eff.modify Eff.await].
  destruct (Auth.oauth_token idp (Auth.tokenRequest env idp c)) as [r|e];
    [|reflexivity].
  now destruct (truthy (Auth.access_token r)).
Qed.

End AuthFacts.


(** X16. The login callback answers with one redirect to the root, of
    status 302, as the last thing it does, unless the token endpoint
    throws: the handler, which has no [catch], then throws what the
    endpoint threw and the request is left without answer.  The token
    endpoint is asked only for a request with a code, and at most once. *)
Theorem callback_answers
        (env : Auth.ProcessEnv) (idp : Auth.Provider) (code : option string) :
  (truthy code = false ->
   Auth.run (Auth.callback env idp code) = (Ok tt, [Auth.Redirect 302 "/"]))
  /\ length (List.filter Auth.isFetch
               (snd (Auth.run (Auth.callback env idp code)))) <= 1
  /\ match fst (Auth.run (Auth.callback env idp code)) with
     | Ok _ =>
         exists pre,
           snd (Auth.run (Auth.callback env idp code))
           = pre ++ [Auth.Redirect 302 "/"]
           /\ forall s u, ~ In (Auth.Redirect s u) pre
     | Thrown e =>
         exists c,
           code = Some c /\ c <> ""
           /\ Auth.oauth_token idp (Auth.tokenRequest env idp c) = Thrown e
           /\ snd (Auth.run (Auth.callback env idp code))
              = [Auth.Fetch "https://huggingface.co/oauth/token"
                            (Auth.tokenRequest env idp c)]
     end.
Proof.
  split; [apply callback_without_code|].
  destruct (truthy code) eqn:Hcode.
  - apply truthy_is_Some in Hcode as [c [-> Hc]].
    rewrite (callback_with_code env idp c Hc).
    destruct (Auth.oauth_token idp (Auth.tokenRequest env idp c))
      as [[tok]|e] eqn:Htok.
    + cbn [Auth.access_token].
      destruct (truthy tok); cbn [fst snd]; split; try (cbn; lia).
      * eexists [_; _]. split; [reflexivity|].
        intros s u [H|[H|[]]]; discriminate.
      * eexists [_]. split; [reflexivity|].
        intros s u [H|[]]; discriminate.
    + cbn [fst snd]. split; [cbn; lia|].
      exists c. apply truthy_Some in Hc. auto.
  - rewrite (callback_without_code env idp code Hcode). cbn [fst snd].
    split; [cbn; lia|]. exists []. split; [reflexivity|]. intros s u [].
Qed.

